(** * The GuestVM debug channel ([guestvmDBChannel.c]): model and properties

    A shallow embedding of the native side of the Maxine inspector's
    database channel for GuestVM domains.  The C file keeps four static
    variables ([terminated], [threads_at_rest], [num_threads_at_rest],
    [suspend_all_request]) and talks to the target through the [db_*]
    library.  The functions are embedded in a state-and-fault monad over a
    [world] holding those variables, the malloc'ed thread arrays and the log
    of calls made to the collaborators. *)

From Stdlib Require Import ZArith List Lia Bool.
From Stdlib.Strings Require Import Byte.
From stdpp Require Import base numbers list.

Local Open Scope Z_scope.

(** ** Data *)

(** [struct db_thread]: the two fields the channel reads. *)
Record db_thread := { id : Z; flags : Z }.

(** [struct db_regs]: the two fields the channel reads. *)
Record db_regs := { rsp : Z; rip : Z }.

(** The values of [ThreadState_t] that [toThreadState] can return. *)
Inductive ThreadState_t :=
| TS_MONITOR_WAIT
| TS_NOTIFY_WAIT
| TS_JOIN_WAIT
| TS_SLEEPING
| TS_WATCHPOINT
| TS_SUSPENDED.

(** The macros and struct sizes that come from the headers ([isa.h] and the
    db interface header); the channel only names them. *)
Class db_header := {
  RUNNABLE_FLAG : Z;
  RUNNING_FLAG : Z;
  DYING_FLAG : Z;
  REQ_DEBUG_SUSPEND_FLAG : Z;
  DEBUG_SUSPEND_FLAG : Z;
  AUX1_FLAG : Z;
  AUX2_FLAG : Z;
  JOIN_FLAG : Z;
  SLEEP_FLAG : Z;
  WATCH_FLAG : Z;
  AFTER_W : Z;
  READ_W : Z;
  WRITE_W : Z;
  EXEC_W : Z;
  sizeof_isa_CanonicalIntegerRegistersStruct : Z;
  sizeof_isa_CanonicalStateRegistersStruct : Z;
  sizeof_isa_CanonicalFloatingPointRegistersStruct : Z
}.

(** What [db_gather_threads(&num_threads)] hands back: the array (or NULL)
    and the count stored through the out-pointer. *)
Record gather_reply := {
  reply_threads : option (list db_thread);
  reply_num : Z
}.

(** The collaborators: the db library of the target, the register
    canonicalizers of [isa.h] and the thread-locals search.  The n-th call
    of [db_gather_threads] answers [db_gather_threads n]. *)
Record target := {
  db_gather_threads : nat -> gather_reply;
  db_get_regs : Z -> option db_regs;
  db_activate_watchpoint : Z -> Z -> Z -> Z;
  db_watchpoint_info : Z -> Z * Z;
  isa_canonicalizeTeleIntegerRegisters : db_regs -> list byte;
  isa_canonicalizeTeleStateRegisters : db_regs -> list byte;
  isa_canonicalizeTeleFloatingPointRegisters : db_regs -> list byte;
  teleProcess_findThreadLocals : Z -> Z
}.

Inductive log_message :=
| msg_cannot_get_registers (threadId : Z)
| msg_integer_buffer_too_large
| msg_state_buffer_too_large
| msg_floating_point_buffer_too_large
| msg_no_thread_at_watchpoint.

(** One entry per call that leaves the channel. *)
Inductive call :=
| Call_db_resume_all
| Call_db_suspend_all
| Call_db_signoff
| Call_db_gather_threads
| Call_db_get_regs (threadId : Z)
| Call_db_activate_watchpoint (address size kind : Z)
| Call_db_watchpoint_info (threadId : Z)
| Call_usleep (usecs : Z)
| Call_log_println (m : log_message)
| Call_findThreadLocals (sp : Z)
| Call_jniGatherThread (threadId : Z) (st : ThreadState_t) (ip tl : Z).

(** The C heap as far as the channel sees it: block [n] is [Some ts] while
    live and [None] once freed; block numbers are never reused, so a stale
    pointer stays recognisable. *)
Record world := {
  terminated : Z;
  threads_at_rest : option nat;
  num_threads_at_rest : Z;
  suspend_all_request : Z;
  heap : list (option (list db_thread));
  gathers : nat;
  calls : list call
}.

Inductive fault :=
| NullDereference
| UseAfterFree
| OutOfBounds
| InvalidFree.

Inductive outcome (A : Type) :=
| Ok (a : A) (w : world)
| Undefined (f : fault).

Arguments Ok {A} a w.
Arguments Undefined {A} f.

Definition M (A : Type) := world -> outcome A.

Definition ret {A} (a : A) : M A := fun w => Ok a w.

Definition bind {A B} (m : M A) (k : A -> M B) : M B :=
  fun w => match m w with
           | Ok a w' => k a w'
           | Undefined f => Undefined f
           end.

Notation "x <- m ;; k" := (bind m (fun x => k))
  (at level 100, m at next level, right associativity).
Notation "m ;;; k" := (bind m (fun _ => k))
  (at level 100, right associativity).

Definition undefined {A} (f : fault) : M A := fun _ => Undefined f.

Definition get : M world := fun w => Ok w w.

(** Updates of one group of fields of the world. *)
Definition add_call (c : call) (w : world) : world :=
  {| terminated := terminated w;
     threads_at_rest := threads_at_rest w;
     num_threads_at_rest := num_threads_at_rest w;
     suspend_all_request := suspend_all_request w;
     heap := heap w;
     gathers := gathers w;
     calls := calls w ++ [c] |}.

Definition with_terminated (v : Z) (w : world) : world :=
  {| terminated := v;
     threads_at_rest := threads_at_rest w;
     num_threads_at_rest := num_threads_at_rest w;
     suspend_all_request := suspend_all_request w;
     heap := heap w;
     gathers := gathers w;
     calls := calls w |}.

Definition with_threads_at_rest (p : option nat) (n : Z) (w : world) : world :=
  {| terminated := terminated w;
     threads_at_rest := p;
     num_threads_at_rest := n;
     suspend_all_request := suspend_all_request w;
     heap := heap w;
     gathers := gathers w;
     calls := calls w |}.

Definition with_suspend_all_request (v : Z) (w : world) : world :=
  {| terminated := terminated w;
     threads_at_rest := threads_at_rest w;
     num_threads_at_rest := num_threads_at_rest w;
     suspend_all_request := v;
     heap := heap w;
     gathers := gathers w;
     calls := calls w |}.

Definition with_heap (h : list (option (list db_thread))) (g : nat) (w : world) : world :=
  {| terminated := terminated w;
     threads_at_rest := threads_at_rest w;
     num_threads_at_rest := num_threads_at_rest w;
     suspend_all_request := suspend_all_request w;
     heap := h;
     gathers := g;
     calls := calls w |}.

Definition record_call (c : call) : M unit := fun w => Ok tt (add_call c w).

Definition set_terminated (v : Z) : M unit := fun w => Ok tt (with_terminated v w).

Definition set_threads_at_rest (p : option nat) (n : Z) : M unit :=
  fun w => Ok tt (with_threads_at_rest p n w).

Definition set_suspend_all_request (v : Z) : M unit :=
  fun w => Ok tt (with_suspend_all_request v w).

(** [threads[i]] for a pointer [p]. *)
Definition load_thread (p : option nat) (i : Z) : M db_thread := fun w =>
  match p with
  | None => Undefined NullDereference
  | Some b =>
      match heap w !! b with
      | Some (Some ts) =>
          if 0 <=? i then
            match ts !! Z.to_nat i with
            | Some t => Ok t w
            | None => Undefined OutOfBounds
            end
          else Undefined OutOfBounds
      | Some None => Undefined UseAfterFree
      | None => Undefined OutOfBounds
      end
  end.

(** [free(p)]; [free(NULL)] does nothing. *)
Definition free (p : option nat) : M unit := fun w =>
  match p with
  | None => Ok tt w
  | Some b =>
      match heap w !! b with
      | Some (Some _) => Ok tt (with_heap (<[b := None]> (heap w)) (gathers w) w)
      | _ => Undefined InvalidFree
      end
  end.

(** A C condition: non-zero is true. *)
Definition truth (z : Z) : bool := negb (z =? 0).

(** Conversion of a [jint] to [size_t] for the comparison with [sizeof]. *)
Definition to_size_t (z : Z) : Z := z mod 2 ^ 64.

(** Conversion of an [int] result to [jboolean] (an unsigned byte). *)
Definition to_jboolean (z : Z) : Z := z mod 256.

(** JNI [SetByteArrayRegion(env, array, start, len, buf)]: copies
    [buf[0..len)] into the array, and copies nothing when the region does not
    lie inside the array (an ArrayIndexOutOfBoundsException is raised). *)
Definition SetByteArrayRegion (array : list byte) (start len : Z) (buf : list byte) : list byte :=
  if (0 <=? start) && (0 <=? len) && (start + len <=? Z.of_nat (length array)) then
    take (Z.to_nat start) array ++ take (Z.to_nat len) buf
      ++ drop (Z.to_nat (start + len)) array
  else array.

Section Channel.

Context {H : db_header} (T : target).

(** [db_gather_threads(&num_threads)]: the array comes in a fresh block. *)
Definition call_db_gather_threads : M (option nat * Z) :=
  record_call Call_db_gather_threads ;;;
  fun w =>
    let r := db_gather_threads T (gathers w) in
    match reply_threads r with
    | Some ts =>
        Ok (Some (length (heap w)), reply_num r)
           (with_heap (heap w ++ [Some ts]) (S (gathers w)) w)
    | None => Ok (None, reply_num r) (with_heap (heap w) (S (gathers w)) w)
    end.

(** [teleThreadLocalsInitialize]: the static state is reset for a new
    connection. *)
Definition teleThreadLocalsInitialize : M unit :=
  set_terminated 0 ;;;
  set_threads_at_rest None 0 ;;;
  set_suspend_all_request 0.

Definition is_state (state flag : Z) : Z :=
  if truth (Z.land state flag) then 1 else 0.

Definition is_th_state (thread : db_thread) (flag : Z) : Z :=
  is_state (flags thread) flag.

(** [trace_threads]: [trace_thread] reads [threads[i]] for each [i] below
    [num_threads]; what it prints is not modelled. *)
Fixpoint trace_threads_from (n : nat) (threads : option nat) (i : Z) : M unit :=
  match n with
  | O => ret tt
  | S n' => _ <- load_thread threads i ;; trace_threads_from n' threads (i + 1)
  end.

Definition trace_threads (threads : option nat) (num_threads : Z) : M unit :=
  trace_threads_from (Z.to_nat num_threads) threads 0.

Definition gather_and_trace_threads : M unit :=
  w <- get ;;
  if truth (terminated w) then ret tt
  else
    r <- call_db_gather_threads ;;
    trace_threads (fst r) (snd r) ;;;
    free (fst r).

Definition checked_get_regs (threadId : Z) : M (option db_regs) :=
  record_call (Call_db_get_regs threadId) ;;;
  match db_get_regs T threadId with
  | None =>
      record_call (Call_log_println (msg_cannot_get_registers threadId)) ;;;
      gather_and_trace_threads ;;;
      ret None
  | Some r => ret (Some r)
  end.

Definition nativeSuspendAll : M Z :=
  set_suspend_all_request 1 ;;;
  ret 1.

(** [nativeReadRegisters]: the three Java arrays are passed in and their
    contents after the call are returned with the [jboolean]. *)
Definition nativeReadRegisters (threadId : Z)
    (integerRegisters : list byte) (integerRegistersLength : Z)
    (floatingPointRegisters : list byte) (floatingPointRegistersLength : Z)
    (stateRegisters : list byte) (stateRegistersLength : Z)
  : M (Z * (list byte * list byte * list byte)) :=
  let unchanged := (integerRegisters, floatingPointRegisters, stateRegisters) in
  if sizeof_isa_CanonicalIntegerRegistersStruct <? to_size_t integerRegistersLength then
    record_call (Call_log_println msg_integer_buffer_too_large) ;;;
    ret (0, unchanged)
  else if sizeof_isa_CanonicalStateRegistersStruct <? to_size_t stateRegistersLength then
    record_call (Call_log_println msg_state_buffer_too_large) ;;;
    ret (0, unchanged)
  else if sizeof_isa_CanonicalFloatingPointRegistersStruct <? to_size_t floatingPointRegistersLength then
    record_call (Call_log_println msg_floating_point_buffer_too_large) ;;;
    ret (0, unchanged)
  else
    r <- checked_get_regs threadId ;;
    match r with
    | None => ret (0, unchanged)
    | Some regs =>
        let canonicalIntegerRegisters := isa_canonicalizeTeleIntegerRegisters T regs in
        let canonicalStateRegisters := isa_canonicalizeTeleStateRegisters T regs in
        let canonicalFloatingPointRegisters := isa_canonicalizeTeleFloatingPointRegisters T regs in
        ret (1, (SetByteArrayRegion integerRegisters 0 integerRegistersLength canonicalIntegerRegisters,
                 SetByteArrayRegion floatingPointRegisters 0 floatingPointRegistersLength canonicalFloatingPointRegisters,
                 SetByteArrayRegion stateRegisters 0 stateRegistersLength canonicalStateRegisters))
    end.

Definition toThreadState (state : Z) : ThreadState_t :=
  if truth (Z.land state AUX1_FLAG) then TS_MONITOR_WAIT
  else if truth (Z.land state AUX2_FLAG) then TS_NOTIFY_WAIT
  else if truth (Z.land state JOIN_FLAG) then TS_JOIN_WAIT
  else if truth (Z.land state SLEEP_FLAG) then TS_SLEEPING
  else if truth (Z.land state WATCH_FLAG) then TS_WATCHPOINT
  else TS_SUSPENDED.

(** The body of the [for] loop of [nativeGatherThreads], from index [i] with
    [n] iterations to go.  [db_regs->rsp] is read without a test. *)
Fixpoint nativeGatherThreads_from (n : nat) (threads : option nat) (i : Z) : M unit :=
  match n with
  | O => ret tt
  | S n' =>
      t <- load_thread threads i ;;
      r <- checked_get_regs (id t) ;;
      match r with
      | None => undefined NullDereference
      | Some regs =>
          record_call (Call_findThreadLocals (rsp regs)) ;;;
          record_call (Call_jniGatherThread (id t) (toThreadState (flags t)) (rip regs)
                         (teleProcess_findThreadLocals T (rsp regs))) ;;;
          nativeGatherThreads_from n' threads (i + 1)
      end
  end.

Definition nativeGatherThreads : M Z :=
  r <- call_db_gather_threads ;;
  nativeGatherThreads_from (Z.to_nat (snd r)) (fst r) 0 ;;;
  free (fst r) ;;;
  ret 0.

(** [nativeActivateWatchpoint]; the four [jboolean] arguments are bytes. *)
Definition nativeActivateWatchpoint (address size after read write exec : Z) : M Z :=
  let kind := 0 in
  let kind := if truth after then Z.lor kind AFTER_W else kind in
  let kind := if truth read then Z.lor kind READ_W else kind in
  let kind := if truth write then Z.lor kind WRITE_W else kind in
  let kind := if truth exec then Z.lor kind EXEC_W else kind in
  if negb (truth after) then ret 0
  else
    record_call (Call_db_activate_watchpoint address size kind) ;;;
    ret (to_jboolean (db_activate_watchpoint T address size kind)).

(** The [for] loop of [get_wp_thread] over the cached array. *)
Fixpoint get_wp_thread_from (n : nat) (i : Z) : M Z :=
  match n with
  | O => ret (-1)
  | S n' =>
      w <- get ;;
      t <- load_thread (threads_at_rest w) i ;;
      if truth (is_th_state t WATCH_FLAG) then ret (id t)
      else get_wp_thread_from n' (i + 1)
  end.

Definition get_wp_thread : M Z :=
  w <- get ;;
  get_wp_thread_from (Z.to_nat (num_threads_at_rest w)) 0.

Definition nativeReadWatchpointAddress : M Z :=
  thread_id <- get_wp_thread ;;
  if thread_id <? 0 then
    record_call (Call_log_println msg_no_thread_at_watchpoint) ;;;
    ret 0
  else
    record_call (Call_db_watchpoint_info thread_id) ;;;
    ret (fst (db_watchpoint_info T thread_id)).

Definition nativeReadWatchpointAccessCode : M Z :=
  thread_id <- get_wp_thread ;;
  if thread_id <? 0 then
    record_call (Call_log_println msg_no_thread_at_watchpoint) ;;;
    ret 0
  else
    record_call (Call_db_watchpoint_info thread_id) ;;;
    let kind := snd (db_watchpoint_info T thread_id) in
    ret (Z.land kind (Z.lnot AFTER_W)).

(** ** [nativeResume] as a machine

    The function polls in a loop that need not end, and another caller may
    store into [suspend_all_request] between any two of its statements, so
    it is embedded as a step function over its program points.  The locals
    live in a [frame]. *)

Inductive label :=
| L_free_cache       (* line 227 *)
| L_resume_all       (* line 228 *)
| L_first_sleep      (* line 230 *)
| L_while            (* line 231: the test of the while loop *)
| L_gather           (* lines 233-242 *)
| L_for              (* lines 244-249: one turn of the for loop *)
| L_free_threads     (* line 250 *)
| L_if_no_request    (* line 251 *)
| L_backoff          (* lines 252-253 *)
| L_clear_request    (* line 264 *)
| L_suspend_all      (* line 266 *)
| L_final_gather     (* lines 267-271 *)
| L_return (r : Z).

(** [idx] is the local [i]. *)
Record frame := {
  pc : label;
  sleep_time : Z;
  threads : option nat;
  num_threads : Z;
  idx : Z
}.

Definition goto (l : label) (f : frame) : frame :=
  {| pc := l; sleep_time := sleep_time f; threads := threads f;
     num_threads := num_threads f; idx := idx f |}.

Definition nativeResume_step (f : frame) : M frame :=
  match pc f with
  | L_free_cache =>
      w <- get ;;
      match threads_at_rest w with
      | Some _ => free (threads_at_rest w)
      | None => ret tt
      end ;;;
      ret (goto L_resume_all f)
  | L_resume_all =>
      record_call Call_db_resume_all ;;;
      ret (goto L_first_sleep f)
  | L_first_sleep =>
      record_call (Call_usleep 500) ;;;
      ret (goto L_while f)
  | L_while =>
      w <- get ;;
      if suspend_all_request w =? 0 then ret (goto L_gather f)
      else ret (goto L_clear_request f)
  | L_gather =>
      r <- call_db_gather_threads ;;
      match fst r with
      | None =>
          record_call Call_db_signoff ;;;
          set_terminated 1 ;;;
          ret {| pc := L_return 1; sleep_time := sleep_time f; threads := None;
                 num_threads := snd r; idx := idx f |}
      | Some _ =>
          trace_threads (fst r) (snd r) ;;;
          ret {| pc := L_for; sleep_time := sleep_time f; threads := fst r;
                 num_threads := snd r; idx := 0 |}
      end
  | L_for =>
      if idx f <? num_threads f then
        t <- load_thread (threads f) (idx f) ;;
        if truth (is_th_state t DEBUG_SUSPEND_FLAG) then
          set_suspend_all_request 1 ;;;
          ret (goto L_free_threads f)
        else
          ret {| pc := L_for; sleep_time := sleep_time f; threads := threads f;
                 num_threads := num_threads f; idx := idx f + 1 |}
      else ret (goto L_free_threads f)
  | L_free_threads =>
      free (threads f) ;;;
      ret (goto L_if_no_request f)
  | L_if_no_request =>
      w <- get ;;
      if suspend_all_request w =? 0 then ret (goto L_backoff f)
      else ret (goto L_while f)
  | L_backoff =>
      let sleep_time' := (sleep_time f + 2000) mod 2 ^ 64 in
      record_call (Call_usleep (sleep_time' mod 2 ^ 32)) ;;;
      ret {| pc := L_while; sleep_time := sleep_time'; threads := threads f;
             num_threads := num_threads f; idx := idx f |}
  | L_clear_request =>
      set_suspend_all_request 0 ;;;
      ret (goto L_suspend_all f)
  | L_suspend_all =>
      record_call Call_db_suspend_all ;;;
      ret (goto L_final_gather f)
  | L_final_gather =>
      r <- call_db_gather_threads ;;
      trace_threads (fst r) (snd r) ;;;
      set_threads_at_rest (fst r) (snd r) ;;;
      ret {| pc := L_return 0; sleep_time := sleep_time f; threads := fst r;
             num_threads := snd r; idx := idx f |}
  | L_return _ => ret f
  end.

(** The function run alone for at most [fuel] steps: [Some r] once it has
    returned [r]. *)
Fixpoint nativeResume_run (fuel : nat) (f : frame) : M (option Z) :=
  match pc f with
  | L_return r => ret (Some r)
  | _ =>
      match fuel with
      | O => ret None
      | S fuel' => f' <- nativeResume_step f ;; nativeResume_run fuel' f'
      end
  end.

Definition nativeResume_entry : frame :=
  {| pc := L_free_cache; sleep_time := 0; threads := None; num_threads := 0; idx := 0 |}.

Definition nativeResume (fuel : nat) : M (option Z) :=
  nativeResume_run fuel nativeResume_entry.

(** Two callers: the one inside [nativeResume] and one that calls
    [nativeSuspendAll].  A schedule says who moves next. *)
Inductive actor :=
| Resumer
| Requester.

Fixpoint interleave (s : list actor) (f : frame) : M frame :=
  match s with
  | [] => ret f
  | Resumer :: s' => f' <- nativeResume_step f ;; interleave s' f'
  | Requester :: s' => nativeSuspendAll ;;; interleave s' f
  end.

End Channel.

(** The program points of the polling loop (lines 231-255). *)
Definition in_poll_loop (l : label) : bool :=
  match l with
  | L_while | L_gather | L_for | L_free_threads | L_if_no_request | L_backoff => true
  | _ => false
  end.

Definition is_usleep (c : call) : bool :=
  match c with
  | Call_usleep _ => true
  | _ => false
  end.

Definition usleeps (cs : list call) : nat := length (List.filter is_usleep cs).

Arguments usleeps : simpl never.

Definition has_flag (flag : Z) (t : db_thread) : bool := truth (Z.land (flags t) flag).

(** The cache as [nativeResume] leaves it on its normal return: a live array
    of [num_threads_at_rest] threads, or nothing at all. *)
Definition cache_holds (w : world) (ts : list db_thread) : Prop :=
  num_threads_at_rest w = Z.of_nat (length ts) /\
  match threads_at_rest w with
  | Some b => heap w !! b = Some (Some ts)
  | None => ts = []
  end.

(** A reply whose count is the length of the array it comes with, and is
    not positive when there is no array. *)
Definition reply_consistent (r : gather_reply) : Prop :=
  match reply_threads r with
  | Some ts => reply_num r = Z.of_nat (length ts)
  | None => reply_num r <= 0
  end.

(** A listing in which no thread has suspended itself. *)
Definition none_debug_suspended `{db_header} (r : gather_reply) : Prop :=
  exists ts, reply_threads r = Some ts /\ reply_num r = Z.of_nat (length ts) /\
             Forall (fun t => has_flag DEBUG_SUSPEND_FLAG t = false) ts.

(** [reaches T f w f' w']: [nativeResume], left alone, gets from [f] in
    world [w] to [f'] in world [w']. *)
Inductive reaches `{db_header} (T : target) : frame -> world -> frame -> world -> Prop :=
| reaches_here f w : reaches T f w f w
| reaches_step f w f1 w1 f2 w2 :
    nativeResume_step T f w = Ok f1 w1 ->
    reaches T f1 w1 f2 w2 ->
    reaches T f w f2 w2.

(** What [nativeResume] leaves in the world, apart from the termination
    flag, while it polls: the cache variables and the request flag stay, the
    heap and the log of calls grow. *)
Definition polled (w w' : world) : Prop :=
  threads_at_rest w' = threads_at_rest w /\
  num_threads_at_rest w' = num_threads_at_rest w /\
  suspend_all_request w' = suspend_all_request w /\
  (exists hs, heap w' = heap w ++ hs) /\
  (exists cs, calls w' = calls w ++ cs).

Definition resumer_turns (s : list actor) : nat :=
  length (List.filter (fun a => match a with Resumer => true | Requester => false end) s).

(** The locals [threads] and [num_threads] describe a live array. *)
Definition live_threads (f : frame) (w : world) : Prop :=
  exists b ts, threads f = Some b /\ heap w !! b = Some (Some ts) /\
               num_threads f = Z.of_nat (length ts).

Definition frame_consistent (f : frame) (w : world) : Prop :=
  match pc f with
  | L_for => live_threads f w /\ 0 <= idx f
  | L_free_threads => live_threads f w
  | _ => True
  end.

(** An upper bound on the steps [nativeResume] still takes inside the
    polling loop once [suspend_all_request] is set. *)
Definition turns_left (T : target) (f : frame) (w : world) : nat :=
  match pc f with
  | L_while => 1
  | L_gather =>
      match reply_threads (db_gather_threads T (gathers w)) with
      | Some _ => Z.to_nat (reply_num (db_gather_threads T (gathers w))) + 5
      | None => 1
      end
  | L_for => Z.to_nat (num_threads f - idx f) + 4
  | L_free_threads => 3
  | L_if_no_request => 2
  | L_backoff => 2
  | _ => 0
  end.

(** The invariant of the polling loop under a pending request: [u0] calls of
    [usleep] had been made when the request was stored, [m0] was the bound
    on the turns then, and [k] turns have been taken since. *)
Definition poll_inv (T : target) (u0 m0 k : nat) (f : frame) (w : world) : Prop :=
  (usleeps (calls w) + (match pc f with L_backoff => 1 | _ => 0 end) <= u0 + 1)%nat /\
  (in_poll_loop (pc f) = true ->
   suspend_all_request w = 1 /\ (k + turns_left T f w <= m0)%nat) /\
  frame_consistent f w /\
  match pc f with
  | L_free_cache | L_resume_all | L_first_sleep => False
  | _ => True
  end.

(** ** Concrete collaborators, to run the model *)

(** One assignment of distinct bits to the macros, and of sizes to the
    canonical register structs. *)
Definition sample_header : db_header :=
  {| RUNNABLE_FLAG := 1; RUNNING_FLAG := 2; DYING_FLAG := 8;
     REQ_DEBUG_SUSPEND_FLAG := 16; DEBUG_SUSPEND_FLAG := 64;
     AUX1_FLAG := 1024; AUX2_FLAG := 2048; JOIN_FLAG := 512;
     SLEEP_FLAG := 4096; WATCH_FLAG := 16384;
     AFTER_W := 1; READ_W := 2; WRITE_W := 4; EXEC_W := 8;
     sizeof_isa_CanonicalIntegerRegistersStruct := 4;
     sizeof_isa_CanonicalStateRegistersStruct := 2;
     sizeof_isa_CanonicalFloatingPointRegistersStruct := 3 |}.

Definition sample_world : world :=
  {| terminated := 0; threads_at_rest := None; num_threads_at_rest := 0;
     suspend_all_request := 0; heap := []; gathers := 0; calls := [] |}.

(** A target with one runnable thread, that is gone at the third listing. *)
Definition sample_target : target :=
  {| db_gather_threads := fun n =>
       if (n <? 2)%nat then {| reply_threads := Some [ {| id := 3; flags := 1 |} ]; reply_num := 1 |}
       else {| reply_threads := None; reply_num := 0 |};
     db_get_regs := fun t => if t =? 3 then Some {| rsp := 4096; rip := 8192 |} else None;
     db_activate_watchpoint := fun _ _ _ => 1;
     db_watchpoint_info := fun _ => (0, 3);
     isa_canonicalizeTeleIntegerRegisters := fun _ => [x01; x02; x03; x04];
     isa_canonicalizeTeleStateRegisters := fun _ => [x05; x06];
     isa_canonicalizeTeleFloatingPointRegisters := fun _ => [x07; x08; x09];
     teleProcess_findThreadLocals := fun sp => sp + 16 |}.

(** The world in which the run of [sample_target] from [sample_world] ends. *)
Definition terminated_world : world :=
  {| terminated := 1; threads_at_rest := None; num_threads_at_rest := 0;
     suspend_all_request := 0; heap := [None; None]; gathers := 3;
     calls := [Call_db_resume_all; Call_usleep 500; Call_db_gather_threads;
               Call_usleep 2000; Call_db_gather_threads; Call_usleep 4000;
               Call_db_gather_threads; Call_db_signoff] |}.

(** A rested cache of one thread that sleeps and has hit a watchpoint. *)
Definition sleeping_watch_world : world :=
  {| terminated := 0; threads_at_rest := Some 0%nat; num_threads_at_rest := 1;
     suspend_all_request := 0;
     heap := [Some [ {| id := 1; flags := 4096 + 16384 |} ]];
     gathers := 1; calls := [] |}.

(** A target that lists thread 7 and has no registers for it. *)
Definition lost_thread_target : target :=
  {| db_gather_threads := fun _ =>
       {| reply_threads := Some [ {| id := 7; flags := 1 |} ]; reply_num := 1 |};
     db_get_regs := fun _ => None;
     db_activate_watchpoint := fun _ _ _ => 1;
     db_watchpoint_info := fun _ => (0, 1);
     isa_canonicalizeTeleIntegerRegisters := fun _ => [x01; x02; x03; x04];
     isa_canonicalizeTeleStateRegisters := fun _ => [x05; x06];
     isa_canonicalizeTeleFloatingPointRegisters := fun _ => [x07; x08; x09];
     teleProcess_findThreadLocals := fun sp => sp + 16 |}.

(** ** Further vocabulary for the statements below *)

(** The cache names a live array of [num_threads_at_rest] threads, or no
    array and no thread. *)
Definition cache_valid (w : world) : Prop :=
  match threads_at_rest w with
  | Some b => exists ts, heap w !! b = Some (Some ts) /\
                         num_threads_at_rest w = Z.of_nat (length ts)
  | None => num_threads_at_rest w <= 0
  end.

(** The four static variables are the same in both worlds. *)
Definition statics_kept (w w' : world) : Prop :=
  terminated w' = terminated w /\
  threads_at_rest w' = threads_at_rest w /\
  num_threads_at_rest w' = num_threads_at_rest w /\
  suspend_all_request w' = suspend_all_request w.

(** The heap once line 227 has run. *)
Definition heap_after_discard (w : world) : list (option (list db_thread)) :=
  match threads_at_rest w with
  | Some b => <[b := None]> (heap w)
  | None => heap w
  end.

(** The calls of [n] polls that find nothing, the first of them being poll
    number [m] of the cycle (counted from 0). *)
Definition poll_calls (m n : nat) : list call :=
  flat_map (fun k => [Call_db_gather_threads;
                      Call_usleep ((2000 * (Z.of_nat k + 1)) mod 2 ^ 64 mod 2 ^ 32)])
           (seq m n).

(** What [nativeResume] needs of its frame and of the cache to take its next
    step, and what it has established once it has returned. *)
Definition safe_inv (f : frame) (w : world) : Prop :=
  frame_consistent f w /\
  match pc f with
  | L_free_cache => cache_valid w
  | L_return r => (r = 0 -> cache_valid w) /\ (r = 1 -> terminated w = 1)
  | _ => True
  end.

(** The calls [nativeGatherThreads] makes for one listed thread whose
    registers are at hand. *)
Definition gather_report `{db_header} (T : target) (t : db_thread) : list call :=
  match db_get_regs T (id t) with
  | Some regs =>
      [Call_db_get_regs (id t);
       Call_findThreadLocals (rsp regs);
       Call_jniGatherThread (id t) (toThreadState (flags t)) (rip regs)
         (teleProcess_findThreadLocals T (rsp regs))]
  | None => []
  end.

(** ** [print_uart0] of [test_armv7.c]

    [s] is the object the argument points into, from the pointer on; the
    result lists the words stored to [UART0DR], and is [None] when the loop
    runs off the object.  Whether plain [char] is signed is the compiler's
    choice. *)
Definition char_to_unsigned_int (char_is_signed : bool) (c : byte) : Z :=
  let v := Z.of_N (Byte.to_N c) in
  if char_is_signed && (128 <=? v) then (v - 256) mod 2 ^ 32 else v.

Fixpoint print_uart0 (char_is_signed : bool) (s : list byte) : option (list Z) :=
  match s with
  | [] => None
  | c :: s' =>
      if Byte.eqb c x00 then Some []
      else option_map (cons (char_to_unsigned_int char_is_signed c))
                      (print_uart0 char_is_signed s')
  end.

(** A target whose second listing shows thread 4 suspended at a watchpoint,
    and that lists both threads at rest from then on. *)
Definition halting_target : target :=
  {| db_gather_threads := fun n =>
       if (n <? 1)%nat then
         {| reply_threads := Some [ {| id := 3; flags := 1 |} ]; reply_num := 1 |}
       else if (n <? 2)%nat then
         {| reply_threads := Some [ {| id := 3; flags := 1 |};
                                    {| id := 4; flags := 64 + 16384 |} ];
            reply_num := 2 |}
       else
         {| reply_threads := Some [ {| id := 3; flags := 64 |};
                                    {| id := 4; flags := 64 + 16384 |} ];
            reply_num := 2 |};
     db_get_regs := fun t => if (t =? 3) || (t =? 4)
                             then Some {| rsp := 4096 * t; rip := 8192 + t |} else None;
     db_activate_watchpoint := fun _ _ _ => 1;
     db_watchpoint_info := fun _ => (8192, 5);
     isa_canonicalizeTeleIntegerRegisters := fun _ => [x01; x02; x03; x04];
     isa_canonicalizeTeleStateRegisters := fun _ => [x05; x06];
     isa_canonicalizeTeleFloatingPointRegisters := fun _ => [x07; x08; x09];
     teleProcess_findThreadLocals := fun sp => sp + 16 |}.

(** A target whose only thread suspends itself and that is gone at the
    listing after. *)
Definition vanishing_target : target :=
  {| db_gather_threads := fun n =>
       if (n <? 1)%nat then
         {| reply_threads := Some [ {| id := 3; flags := 64 |} ]; reply_num := 1 |}
       else {| reply_threads := None; reply_num := 0 |};
     db_get_regs := fun _ => None;
     db_activate_watchpoint := fun _ _ _ => 1;
     db_watchpoint_info := fun _ => (0, 0);
     isa_canonicalizeTeleIntegerRegisters := fun _ => [x01; x02; x03; x04];
     isa_canonicalizeTeleStateRegisters := fun _ => [x05; x06];
     isa_canonicalizeTeleFloatingPointRegisters := fun _ => [x07; x08; x09];
     teleProcess_findThreadLocals := fun sp => sp + 16 |}.

(** A rested cache whose first thread at a watchpoint has a negative id. *)
Definition negative_id_world : world :=
  {| terminated := 0; threads_at_rest := Some 0%nat; num_threads_at_rest := 2;
     suspend_all_request := 0;
     heap := [Some [ {| id := -2; flags := 16384 |}; {| id := 5; flags := 16384 |} ]];
     gathers := 1; calls := [] |}.

(** What holds of a cycle of [nativeResume] begun in world [w0], whoever
    else stores a request meanwhile, until a new array is cached: the cache
    variables are those of [w0], and once line 227 has run the array they
    name is freed and is not the one the poll is working on. *)
Definition cycle_inv (w0 : world) (f : frame) (w : world) : Prop :=
  match pc f with
  | L_return _ => True
  | L_free_cache =>
      threads_at_rest w = threads_at_rest w0 /\
      num_threads_at_rest w = num_threads_at_rest w0
  | _ =>
      threads_at_rest w = threads_at_rest w0 /\
      num_threads_at_rest w = num_threads_at_rest w0 /\
      forall b0, threads_at_rest w0 = Some b0 ->
        heap w !! b0 = Some None /\
        match pc f with
        | L_for | L_free_threads => threads f <> Some b0
        | _ => True
        end
  end.

(** Two outcomes that differ at most in the value of [terminated]. *)
Definition agree_but_terminated {A : Type} (o1 o2 : outcome A) : Prop :=
  match o1, o2 with
  | Ok a1 w1, Ok a2 w2 => a1 = a2 /\ with_terminated 0 w1 = with_terminated 0 w2
  | Undefined e1, Undefined e2 => e1 = e2
  | _, _ => False
  end.

(** ** Properties *)

(** *** Memory and the monad *)

Lemma truth_is_state (state flag : Z) :
  truth (is_state state flag) = truth (Z.land state flag).
Proof. unfold is_state. destruct (truth (Z.land state flag)); reflexivity. Qed.

Lemma truth_true (z : Z) : truth z = true <-> z <> 0.
Proof. unfold truth. destruct (Z.eqb_spec z 0); simpl; split; congruence. Qed.

Lemma truth_false (z : Z) : truth z = false <-> z = 0.
Proof. unfold truth. destruct (Z.eqb_spec z 0); simpl; split; congruence. Qed.

Lemma load_thread_live (w : world) (b : nat) (pre suf : list db_thread) (t : db_thread) :
  heap w !! b = Some (Some (pre ++ t :: suf)) ->
  load_thread (Some b) (Z.of_nat (length pre)) w = Ok t w.
Proof.
  intros Hb. unfold load_thread. rewrite Hb.
  destruct (Z.leb_spec 0 (Z.of_nat (length pre))) as [_|]; [|lia].
  rewrite Nat2Z.id, list_lookup_middle by reflexivity. reflexivity.
Qed.

Section ChannelFacts.

Context {H : db_header} (T : target).

Lemma get_wp_thread_from_cache (w : world) (b : nat) (suf pre : list db_thread) :
  threads_at_rest w = Some b ->
  heap w !! b = Some (Some (pre ++ suf)) ->
  get_wp_thread_from (length suf) (Z.of_nat (length pre)) w =
    Ok (match List.find (has_flag WATCH_FLAG) suf with
        | Some t => id t
        | None => -1
        end) w.
Proof.
  intros Hp. revert pre. induction suf as [|t suf IH]; intros pre Hb; [reflexivity|].
  cbn [length get_wp_thread_from List.find]. unfold bind at 1, get.
  rewrite Hp. unfold bind at 1. rewrite (load_thread_live _ _ _ _ _ Hb).
  unfold is_th_state. rewrite truth_is_state. fold (has_flag WATCH_FLAG t).
  destruct (has_flag WATCH_FLAG t); [reflexivity|].
  specialize (IH (pre ++ [t])). rewrite <- app_assoc in IH. specialize (IH Hb).
  rewrite length_app, Nat2Z.inj_add in IH. exact IH.
Qed.

Lemma get_wp_thread_cached (w : world) (ts : list db_thread) :
  cache_holds w ts ->
  get_wp_thread w =
    Ok (match List.find (has_flag WATCH_FLAG) ts with
        | Some t => id t
        | None => -1
        end) w.
Proof.
  intros [Hn Hc]. unfold get_wp_thread, bind, get. rewrite Hn, Nat2Z.id.
  destruct (threads_at_rest w) as [b|] eqn:Hp.
  - apply (get_wp_thread_from_cache w b ts []); assumption.
  - subst ts. reflexivity.
Qed.

End ChannelFacts.

(** *** The classifier and the watchpoint calls *)

Section Watchpoints.

Context {H : db_header} (T : target).

(** C2: [toThreadState] is a total function of the flags that answers by the
    first flag set in the order monitor-wait, notify-wait, join-wait,
    sleeping, watchpoint, and [TS_SUSPENDED] when none is set; so flags with
    the sleeping and the watchpoint bit (and no wait bit) give
    [TS_SLEEPING]. *)
Theorem toThreadState_priority (state : Z) :
  (Z.land state AUX1_FLAG <> 0 -> toThreadState state = TS_MONITOR_WAIT) /\
  (Z.land state AUX1_FLAG = 0 -> Z.land state AUX2_FLAG <> 0 ->
   toThreadState state = TS_NOTIFY_WAIT) /\
  (Z.land state AUX1_FLAG = 0 -> Z.land state AUX2_FLAG = 0 ->
   Z.land state JOIN_FLAG <> 0 -> toThreadState state = TS_JOIN_WAIT) /\
  (Z.land state AUX1_FLAG = 0 -> Z.land state AUX2_FLAG = 0 ->
   Z.land state JOIN_FLAG = 0 -> Z.land state SLEEP_FLAG <> 0 ->
   toThreadState state = TS_SLEEPING) /\
  (Z.land state AUX1_FLAG = 0 -> Z.land state AUX2_FLAG = 0 ->
   Z.land state JOIN_FLAG = 0 -> Z.land state SLEEP_FLAG = 0 ->
   Z.land state WATCH_FLAG <> 0 -> toThreadState state = TS_WATCHPOINT) /\
  (Z.land state AUX1_FLAG = 0 -> Z.land state AUX2_FLAG = 0 ->
   Z.land state JOIN_FLAG = 0 -> Z.land state SLEEP_FLAG = 0 ->
   Z.land state WATCH_FLAG = 0 -> toThreadState state = TS_SUSPENDED) /\
  (Z.land state AUX1_FLAG = 0 -> Z.land state AUX2_FLAG = 0 ->
   Z.land state JOIN_FLAG = 0 -> Z.land state SLEEP_FLAG <> 0 ->
   Z.land state WATCH_FLAG <> 0 -> toThreadState state = TS_SLEEPING).
Proof.
  unfold toThreadState. repeat split; intros;
    repeat match goal with
           | E : Z.land _ _ = 0 |- _ => apply truth_false in E; rewrite E; clear E
           | E : Z.land _ _ <> 0 |- _ => apply truth_true in E; rewrite E; clear E
           end; reflexivity.
Qed.

(** C5: [nativeActivateWatchpoint] with a false [after] returns false and
    leaves the log of calls as it was; with a true [after] it calls
    [db_activate_watchpoint] once, with a kind that holds [AFTER_W] and the
    other requested bits, and returns its answer. *)
Theorem nativeActivateWatchpoint_after (address size after read write exec : Z) (w : world) :
  (after = 0 ->
   nativeActivateWatchpoint T address size after read write exec w = Ok 0 w) /\
  (after <> 0 ->
   let kind := Z.lor (Z.lor (Z.lor AFTER_W (if truth read then READ_W else 0))
                        (if truth write then WRITE_W else 0))
                 (if truth exec then EXEC_W else 0) in
   Z.land kind AFTER_W = AFTER_W /\
   nativeActivateWatchpoint T address size after read write exec w =
     Ok (to_jboolean (db_activate_watchpoint T address size kind))
        (add_call (Call_db_activate_watchpoint address size kind) w)).
Proof.
  unfold nativeActivateWatchpoint. split.
  - intros ->. reflexivity.
  - intros Ha. apply truth_true in Ha. rewrite Ha. cbn zeta. split.
    + apply Z.bits_inj'. intros n _.
      rewrite Z.land_spec, !Z.lor_spec.
      destruct (Z.testbit AFTER_W n); [reflexivity|apply andb_false_r].
    + cbn [negb]. rewrite Z.lor_0_l.
      destruct (truth read), (truth write), (truth exec);
        rewrite ?Z.lor_0_r; reflexivity.
Qed.

(** C4 (amended): [get_wp_thread] reads the cached array only, and returns
    the id of the first cached thread whose flags hold [WATCH_FLAG], whatever
    [toThreadState] makes of it; it returns -1 when there is none. *)
Theorem get_wp_thread_first_watch_flag (w : world) (ts : list db_thread) :
  cache_holds w ts ->
  get_wp_thread w =
    Ok (match List.find (has_flag WATCH_FLAG) ts with
        | Some t => id t
        | None => -1
        end) w.
Proof. apply get_wp_thread_cached. Qed.

(** C6: when a cached thread is at a watchpoint, the access code returned is
    the kind reported by [db_watchpoint_info] without the bits of
    [AFTER_W]. *)
Theorem nativeReadWatchpointAccessCode_strips_after
    (w : world) (ts : list db_thread) (t : db_thread) :
  cache_holds w ts ->
  List.find (has_flag WATCH_FLAG) ts = Some t ->
  0 <= id t ->
  exists code,
    nativeReadWatchpointAccessCode T w =
      Ok code (add_call (Call_db_watchpoint_info (id t)) w) /\
    Z.land code AFTER_W = 0 /\
    forall n, Z.testbit code n =
              Z.testbit (snd (db_watchpoint_info T (id t))) n && negb (Z.testbit AFTER_W n).
Proof.
  intros Hc Hf Hid.
  exists (Z.land (snd (db_watchpoint_info T (id t))) (Z.lnot AFTER_W)). split; [|split].
  - unfold nativeReadWatchpointAccessCode, bind.
    rewrite (get_wp_thread_cached w ts Hc), Hf.
    destruct (Z.ltb_spec (id t) 0); [lia|]. reflexivity.
  - rewrite <- Z.land_assoc, (Z.land_comm (Z.lnot _)), Z.land_lnot_diag.
    apply Z.land_0_r.
  - intros n. destruct (Z.neg_nonneg_cases n) as [Hn|Hn].
    + rewrite !Z.testbit_neg_r by assumption. reflexivity.
    + rewrite Z.land_spec, Z.lnot_spec by assumption. reflexivity.
Qed.

(** C10: with no cached thread holding [WATCH_FLAG], both reads return 0 and
    only log; and 0 is also what they return for a thread at a watchpoint
    whose reported address is 0 and whose kind has no bit outside
    [AFTER_W]. *)
Theorem no_watchpoint_thread_reads_zero (w : world) (ts : list db_thread) :
  cache_holds w ts ->
  (List.find (has_flag WATCH_FLAG) ts = None ->
   nativeReadWatchpointAddress T w =
     Ok 0 (add_call (Call_log_println msg_no_thread_at_watchpoint) w) /\
   nativeReadWatchpointAccessCode T w =
     Ok 0 (add_call (Call_log_println msg_no_thread_at_watchpoint) w)) /\
  (forall t, List.find (has_flag WATCH_FLAG) ts = Some t -> 0 <= id t ->
   fst (db_watchpoint_info T (id t)) = 0 ->
   Z.land (snd (db_watchpoint_info T (id t))) (Z.lnot AFTER_W) = 0 ->
   nativeReadWatchpointAddress T w =
     Ok 0 (add_call (Call_db_watchpoint_info (id t)) w) /\
   nativeReadWatchpointAccessCode T w =
     Ok 0 (add_call (Call_db_watchpoint_info (id t)) w)).
Proof.
  intros Hc. split.
  - intros Hf. unfold nativeReadWatchpointAddress, nativeReadWatchpointAccessCode, bind.
    rewrite (get_wp_thread_cached w ts Hc), Hf. split; reflexivity.
  - intros t Hf Hid Ha Hk.
    unfold nativeReadWatchpointAddress, nativeReadWatchpointAccessCode, bind.
    rewrite (get_wp_thread_cached w ts Hc), Hf.
    destruct (Z.ltb_spec (id t) 0); [lia|].
    unfold record_call, ret. rewrite Ha, Hk. split; reflexivity.
Qed.

End Watchpoints.

Lemma toThreadState_priority_witness :
  @toThreadState sample_header (4096 + 16384) = TS_SLEEPING.
Proof.
  destruct (@toThreadState_priority sample_header (4096 + 16384))
    as (_ & _ & _ & _ & _ & _ & Hs).
  apply Hs; vm_compute; congruence.
Defined.

Lemma nativeActivateWatchpoint_after_witness :
  @nativeActivateWatchpoint sample_header sample_target 8192 8 0 1 1 0 sample_world
    = Ok 0 sample_world /\
  @nativeActivateWatchpoint sample_header sample_target 8192 8 1 1 1 0 sample_world
    = Ok 1 (add_call (Call_db_activate_watchpoint 8192 8 7) sample_world).
Proof.
  destruct (@nativeActivateWatchpoint_after sample_header sample_target
              8192 8 0 1 1 0 sample_world) as [Hoff _].
  destruct (@nativeActivateWatchpoint_after sample_header sample_target
              8192 8 1 1 1 0 sample_world) as [_ Hon].
  split.
  - apply Hoff. reflexivity.
  - apply Hon. discriminate.
Defined.

(** C4, as stated, fails: the only cached thread classifies as sleeping, no
    cached thread classifies as at a watchpoint, and still its id is
    returned. *)
Lemma get_wp_thread_returns_sleeping_thread :
  threads_at_rest sleeping_watch_world = Some 0%nat /\
  heap sleeping_watch_world !! 0%nat = Some (Some [ {| id := 1; flags := 4096 + 16384 |} ]) /\
  @toThreadState sample_header (4096 + 16384) = TS_SLEEPING /\
  @get_wp_thread sample_header sleeping_watch_world = Ok 1 sleeping_watch_world.
Proof. repeat split. Qed.

Lemma get_wp_thread_first_watch_flag_witness :
  @get_wp_thread sample_header sleeping_watch_world = Ok 1 sleeping_watch_world.
Proof.
  apply (@get_wp_thread_first_watch_flag sample_header sleeping_watch_world
           [ {| id := 1; flags := 4096 + 16384 |} ]).
  split; reflexivity.
Defined.

Lemma nativeReadWatchpointAccessCode_strips_after_witness :
  exists code,
    @nativeReadWatchpointAccessCode sample_header sample_target sleeping_watch_world =
      Ok code (add_call (Call_db_watchpoint_info 1) sleeping_watch_world) /\
    Z.land code 1 = 0 /\
    forall n, Z.testbit code n = Z.testbit 3 n && negb (Z.testbit 1 n).
Proof.
  apply (@nativeReadWatchpointAccessCode_strips_after sample_header sample_target
           sleeping_watch_world [ {| id := 1; flags := 4096 + 16384 |} ]
           {| id := 1; flags := 4096 + 16384 |}).
  - split; reflexivity.
  - reflexivity.
  - simpl. lia.
Defined.

Lemma no_watchpoint_thread_reads_zero_witness :
  @nativeReadWatchpointAddress sample_header sample_target sample_world =
    Ok 0 (add_call (Call_log_println msg_no_thread_at_watchpoint) sample_world) /\
  @nativeReadWatchpointAddress sample_header lost_thread_target sleeping_watch_world =
    Ok 0 (add_call (Call_db_watchpoint_info 1) sleeping_watch_world).
Proof.
  split.
  - apply (@no_watchpoint_thread_reads_zero sample_header sample_target sample_world []).
    + split; reflexivity.
    + reflexivity.
  - apply (proj2 (@no_watchpoint_thread_reads_zero sample_header lost_thread_target
                    sleeping_watch_world [ {| id := 1; flags := 4096 + 16384 |} ]
                    ltac:(split; reflexivity))
             {| id := 1; flags := 4096 + 16384 |}).
    + reflexivity.
    + simpl. lia.
    + reflexivity.
    + reflexivity.
Defined.

(** *** Reading registers and listing threads *)

Lemma SetByteArrayRegion_prefix (array buf : list byte) (len : Z) :
  0 <= len <= Z.of_nat (length array) ->
  SetByteArrayRegion array 0 len buf =
    take (Z.to_nat len) buf ++ drop (Z.to_nat len) array.
Proof.
  intros Hl. unfold SetByteArrayRegion.
  destruct (Z.leb_spec 0 len); [|lia].
  destruct (Z.leb_spec (0 + len) (Z.of_nat (length array))); [|lia].
  reflexivity.
Qed.

Section Registers.

Context {H : db_header} (T : target).

(** C3 (amended): a declared length that, read as a [size_t], is above the
    size of its canonical struct makes [nativeReadRegisters] return false
    with the three arrays as they were and no call but a log line; lengths
    that fit, smaller ones too, are accepted, and with the registers of the
    thread at hand each array receives the declared number of leading bytes
    of its canonical struct and keeps the rest. *)
Theorem nativeReadRegisters_lengths (threadId : Z)
    (integerRegisters floatingPointRegisters stateRegisters : list byte)
    (integerRegistersLength floatingPointRegistersLength stateRegistersLength : Z)
    (w : world) :
  (sizeof_isa_CanonicalIntegerRegistersStruct < to_size_t integerRegistersLength \/
   sizeof_isa_CanonicalStateRegistersStruct < to_size_t stateRegistersLength \/
   sizeof_isa_CanonicalFloatingPointRegistersStruct < to_size_t floatingPointRegistersLength ->
   exists m,
     nativeReadRegisters T threadId integerRegisters integerRegistersLength
       floatingPointRegisters floatingPointRegistersLength
       stateRegisters stateRegistersLength w =
     Ok (0, (integerRegisters, floatingPointRegisters, stateRegisters))
        (add_call (Call_log_println m) w)) /\
  (to_size_t integerRegistersLength <= sizeof_isa_CanonicalIntegerRegistersStruct ->
   to_size_t stateRegistersLength <= sizeof_isa_CanonicalStateRegistersStruct ->
   to_size_t floatingPointRegistersLength <= sizeof_isa_CanonicalFloatingPointRegistersStruct ->
   0 <= integerRegistersLength <= Z.of_nat (length integerRegisters) ->
   0 <= floatingPointRegistersLength <= Z.of_nat (length floatingPointRegisters) ->
   0 <= stateRegistersLength <= Z.of_nat (length stateRegisters) ->
   forall regs, db_get_regs T threadId = Some regs ->
     nativeReadRegisters T threadId integerRegisters integerRegistersLength
       floatingPointRegisters floatingPointRegistersLength
       stateRegisters stateRegistersLength w =
     Ok (1, (take (Z.to_nat integerRegistersLength) (isa_canonicalizeTeleIntegerRegisters T regs)
               ++ drop (Z.to_nat integerRegistersLength) integerRegisters,
             take (Z.to_nat floatingPointRegistersLength)
                  (isa_canonicalizeTeleFloatingPointRegisters T regs)
               ++ drop (Z.to_nat floatingPointRegistersLength) floatingPointRegisters,
             take (Z.to_nat stateRegistersLength) (isa_canonicalizeTeleStateRegisters T regs)
               ++ drop (Z.to_nat stateRegistersLength) stateRegisters))
        (add_call (Call_db_get_regs threadId) w)).
Proof.
  unfold nativeReadRegisters. split.
  - intros Hbig.
    destruct (Z.ltb_spec sizeof_isa_CanonicalIntegerRegistersStruct
                (to_size_t integerRegistersLength));
      [eexists; reflexivity|].
    destruct (Z.ltb_spec sizeof_isa_CanonicalStateRegistersStruct
                (to_size_t stateRegistersLength));
      [eexists; reflexivity|].
    destruct (Z.ltb_spec sizeof_isa_CanonicalFloatingPointRegistersStruct
                (to_size_t floatingPointRegistersLength));
      [eexists; reflexivity|].
    lia.
  - intros Hi Hs Hf Hia Hfa Hsa regs Hregs.
    destruct (Z.ltb_spec sizeof_isa_CanonicalIntegerRegistersStruct
                (to_size_t integerRegistersLength)); [lia|].
    destruct (Z.ltb_spec sizeof_isa_CanonicalStateRegistersStruct
                (to_size_t stateRegistersLength)); [lia|].
    destruct (Z.ltb_spec sizeof_isa_CanonicalFloatingPointRegistersStruct
                (to_size_t floatingPointRegistersLength)); [lia|].
    unfold checked_get_regs, bind, record_call, ret. rewrite Hregs.
    rewrite !SetByteArrayRegion_prefix by assumption. reflexivity.
Qed.

End Registers.

(** C3, as stated, fails: every declared length is below the size of its
    canonical struct, and the call succeeds with one byte copied into each
    array. *)
Lemma nativeReadRegisters_accepts_short_lengths :
  1 < @sizeof_isa_CanonicalIntegerRegistersStruct sample_header /\
  1 < @sizeof_isa_CanonicalFloatingPointRegistersStruct sample_header /\
  1 < @sizeof_isa_CanonicalStateRegistersStruct sample_header /\
  @nativeReadRegisters sample_header sample_target 3
     [x00; x00; x00; x00] 1 [x00; x00; x00] 1 [x00; x00] 1 sample_world =
  Ok (1, ([x01; x00; x00; x00], [x07; x00; x00], [x05; x00]))
     (add_call (Call_db_get_regs 3) sample_world).
Proof. repeat split. Qed.

Lemma nativeReadRegisters_lengths_witness :
  (exists m,
     @nativeReadRegisters sample_header sample_target 3
        [x00; x00; x00; x00] 5 [x00; x00; x00] 1 [x00; x00] 1 sample_world =
     Ok (0, ([x00; x00; x00; x00], [x00; x00; x00], [x00; x00]))
        (add_call (Call_log_println m) sample_world)) /\
  @nativeReadRegisters sample_header sample_target 3
     [x00; x00; x00; x00] 1 [x00; x00; x00] 3 [x00; x00] 0 sample_world =
  Ok (1, ([x01; x00; x00; x00], [x07; x08; x09], [x00; x00]))
     (add_call (Call_db_get_regs 3) sample_world).
Proof.
  split.
  - apply (proj1 (@nativeReadRegisters_lengths sample_header sample_target 3
                    [x00; x00; x00; x00] [x00; x00; x00] [x00; x00] 5 1 1 sample_world)).
    left. vm_compute. reflexivity.
  - apply (proj2 (@nativeReadRegisters_lengths sample_header sample_target 3
                    [x00; x00; x00; x00] [x00; x00; x00] [x00; x00] 1 3 0 sample_world)
             ltac:(vm_compute; discriminate) ltac:(vm_compute; discriminate)
             ltac:(vm_compute; discriminate) ltac:(simpl; lia) ltac:(simpl; lia)
             ltac:(simpl; lia) {| rsp := 4096; rip := 8192 |} eq_refl).
Defined.

(** C9, on the code: thread 7 is listed and [db_get_regs] has nothing for
    it; [checked_get_regs] logs, dumps the threads and hands back NULL, and
    the loop reads [db_regs->rsp] through it. *)
Theorem nativeGatherThreads_reads_null_registers :
  checked_get_regs lost_thread_target 7 sample_world =
    Ok None
       (with_heap [None] 1
          (add_call Call_db_gather_threads
             (add_call (Call_log_println (msg_cannot_get_registers 7))
                (add_call (Call_db_get_regs 7) sample_world)))) /\
  @nativeGatherThreads sample_header lost_thread_target sample_world =
    Undefined NullDereference.
Proof. split; reflexivity. Qed.

(** *** [nativeResume] *)

Lemma usleeps_snoc (cs : list call) (c : call) :
  usleeps (cs ++ [c]) = (usleeps cs + (if is_usleep c then 1 else 0))%nat.
Proof.
  unfold usleeps. rewrite List.filter_app, length_app. cbn [List.filter].
  destruct (is_usleep c); reflexivity.
Qed.

Lemma trace_threads_from_live (w : world) (b : nat) (suf pre : list db_thread) :
  heap w !! b = Some (Some (pre ++ suf)) ->
  trace_threads_from (length suf) (Some b) (Z.of_nat (length pre)) w = Ok tt w.
Proof.
  revert pre. induction suf as [|t suf IH]; intros pre Hb; [reflexivity|].
  cbn [length trace_threads_from]. unfold bind at 1.
  rewrite (load_thread_live _ _ _ _ _ Hb).
  specialize (IH (pre ++ [t])). rewrite <- app_assoc in IH. specialize (IH Hb).
  rewrite length_app, Nat2Z.inj_add in IH. exact IH.
Qed.

Lemma trace_threads_live (w : world) (b : nat) (ts : list db_thread) :
  heap w !! b = Some (Some ts) ->
  trace_threads (Some b) (Z.of_nat (length ts)) w = Ok tt w.
Proof.
  intros Hb. unfold trace_threads. rewrite Nat2Z.id.
  apply (trace_threads_from_live w b ts []). exact Hb.
Qed.

Lemma load_thread_in_range (w : world) (b : nat) (ts : list db_thread) (i : Z) :
  heap w !! b = Some (Some ts) ->
  0 <= i < Z.of_nat (length ts) ->
  exists t, ts !! Z.to_nat i = Some t /\ load_thread (Some b) i w = Ok t w.
Proof.
  intros Hb Hi. destruct (lookup_lt_is_Some_2 ts (Z.to_nat i)) as [t Ht]; [lia|].
  exists t. split; [exact Ht|]. unfold load_thread. rewrite Hb.
  destruct (Z.leb_spec 0 i); [|lia]. rewrite Ht. reflexivity.
Qed.

Lemma heap_fresh_block (h : list (option (list db_thread))) (ts : list db_thread) :
  (h ++ [Some ts]) !! length h = Some (Some ts).
Proof. apply list_lookup_middle. reflexivity. Qed.

Ltac exec :=
  unfold nativeResume_step, call_db_gather_threads, nativeSuspendAll, bind, ret, get,
    record_call, set_terminated, set_threads_at_rest, set_suspend_all_request, goto;
  cbn [pc sleep_time threads num_threads idx fst snd
       terminated threads_at_rest num_threads_at_rest suspend_all_request heap gathers calls
       add_call with_terminated with_threads_at_rest with_suspend_all_request with_heap].

(** Closes the four parts of [poll_inv] after a step, leaving what is to be
    said of the array when the step stays in the scan. *)
Ltac poll_done :=
  rewrite ?usleeps_snoc; cbn [is_usleep];
  split; [lia|];
  split; [intros Hin; first [discriminate Hin | split; [first [assumption|reflexivity]|lia]]|];
  split; [|exact I]; try exact I.

Section Resume.

Context {H : db_header} (T : target).

Hypothesis replies_consistent : forall n, reply_consistent (db_gather_threads T n).

Lemma poll_inv_requester (u0 m0 k : nat) (f : frame) (w : world) :
  poll_inv T u0 m0 k f w ->
  poll_inv T u0 m0 k f (with_suspend_all_request 1 w).
Proof.
  intros (Hu & Hl & Hc & Hp). split; [exact Hu|]. split; [|split; [|exact Hp]].
  - intros Hin. destruct (Hl Hin) as [_ Hk]. split; [reflexivity|exact Hk].
  - destruct f as [p st th num i]. unfold frame_consistent, live_threads in *.
    destruct p; exact Hc.
Qed.

Lemma poll_inv_resumer (u0 m0 k : nat) (f : frame) (w : world) :
  poll_inv T u0 m0 k f w ->
  exists f' w', nativeResume_step T f w = Ok f' w' /\ poll_inv T u0 m0 (S k) f' w'.
Proof.
  intros (Hu & Hl & Hc & Hp). destruct f as [p st th num i].
  unfold poll_inv, frame_consistent, live_threads, turns_left in *.
  cbn [pc threads num_threads idx in_poll_loop] in *.
  destruct p; try contradiction;
    try (destruct Hl as [Hr Hk]; [reflexivity|]).
  - (* L_while *)
    exec. rewrite Hr. cbn.
    eexists _, _. split; [reflexivity|]. cbn. poll_done.
  - (* L_gather *)
    exec.
    pose proof (replies_consistent (gathers w)) as Hrc. unfold reply_consistent in Hrc.
    destruct (reply_threads (db_gather_threads T (gathers w))) as [ts|] eqn:Hts.
    + cbn [fst snd]. rewrite Hrc.
      rewrite trace_threads_live by (cbn [heap with_heap add_call]; apply heap_fresh_block).
      eexists _, _. split; [reflexivity|]. rewrite Hrc in Hk. cbn. poll_done.
      split; [|lia].
      eexists _, _. split; [reflexivity|]. split; [apply heap_fresh_block|reflexivity].
    + cbn [fst snd]. eexists _, _. split; [reflexivity|]. cbn. poll_done.
  - (* L_for *)
    destruct Hc as [(b & ts & -> & Hb & ->) Hi]. exec.
    destruct (Z.ltb_spec i (Z.of_nat (length ts))) as [Hlt|Hge].
    + destruct (load_thread_in_range w b ts i Hb) as (t & _ & ->); [lia|].
      destruct (truth (is_th_state t DEBUG_SUSPEND_FLAG)).
      * eexists _, _. split; [reflexivity|]. cbn. poll_done.
        eexists _, _. split; [reflexivity|]. split; [exact Hb|reflexivity].
      * eexists _, _. split; [reflexivity|]. cbn. poll_done.
        split; [|lia].
        eexists _, _. split; [reflexivity|]. split; [exact Hb|reflexivity].
    + eexists _, _. split; [reflexivity|]. cbn. poll_done.
      eexists _, _. split; [reflexivity|]. split; [exact Hb|reflexivity].
  - (* L_free_threads *)
    destruct Hc as (b & ts & -> & Hb & ->). exec. unfold free. rewrite Hb.
    eexists _, _. split; [reflexivity|]. cbn. poll_done.
  - (* L_if_no_request *)
    exec. rewrite Hr. cbn.
    eexists _, _. split; [reflexivity|]. cbn. poll_done.
  - (* L_backoff *)
    exec. eexists _, _. split; [reflexivity|]. cbn. poll_done.
  - (* L_clear_request *)
    exec. eexists _, _. split; [reflexivity|]. cbn. poll_done.
  - (* L_suspend_all *)
    exec. eexists _, _. split; [reflexivity|]. cbn. poll_done.
  - (* L_final_gather *)
    exec.
    pose proof (replies_consistent (gathers w)) as Hrc. unfold reply_consistent in Hrc.
    destruct (reply_threads (db_gather_threads T (gathers w))) as [ts|] eqn:Hts.
    + cbn [fst snd]. rewrite Hrc.
      rewrite trace_threads_live by (cbn [heap with_heap add_call]; apply heap_fresh_block).
      eexists _, _. split; [reflexivity|]. cbn. poll_done.
    + cbn [fst snd]. unfold trace_threads.
      replace (Z.to_nat (reply_num (db_gather_threads T (gathers w)))) with O by lia.
      cbn [trace_threads_from]. exec.
      eexists _, _. split; [reflexivity|]. cbn. poll_done.
  - (* L_return *)
    exec. eexists _, _. split; [reflexivity|]. cbn. poll_done.
Qed.

Lemma interleave_poll_inv (u0 m0 : nat) (s : list actor) :
  forall (k : nat) (f : frame) (w : world),
    poll_inv T u0 m0 k f w ->
    exists f' w', interleave T s f w = Ok f' w' /\
                  poll_inv T u0 m0 (k + resumer_turns s) f' w'.
Proof.
  induction s as [|a s IH]; intros k f w Hinv.
  - exists f, w. split; [reflexivity|]. unfold resumer_turns. cbn.
    rewrite Nat.add_0_r. exact Hinv.
  - destruct a; cbn [interleave]; unfold bind at 1.
    + destruct (poll_inv_resumer u0 m0 k f w Hinv) as (f1 & w1 & -> & Hinv1).
      destruct (IH (S k) f1 w1 Hinv1) as (f' & w' & Hrun & Hinv').
      exists f', w'. split; [exact Hrun|].
      unfold resumer_turns in *. cbn [List.filter length].
      rewrite Nat.add_succ_r. exact Hinv'.
    + exec. apply (IH k f _ (poll_inv_requester u0 m0 k f w Hinv)).
Qed.

Lemma turns_left_in_loop (f : frame) (w : world) :
  in_poll_loop (pc f) = true -> (1 <= turns_left T f w)%nat.
Proof.
  unfold turns_left. destruct (pc f); try discriminate; intros _; try lia.
  destruct (reply_threads _); lia.
Qed.

(** C7: [nativeSuspendAll] always returns true and changes nothing but
    [suspend_all_request]; and when it runs while [nativeResume] is inside
    its polling loop, then however the two callers take turns afterwards,
    [nativeResume] runs on without fault, makes at most one more [usleep],
    keeps seeing the request for as long as it is in the loop, is out of the
    loop within a bounded number of its own steps, and leaves the loop at
    the next test of the [while] condition. *)
Theorem suspend_all_request_ends_poll (f : frame) (w : world) (s : list actor) :
  in_poll_loop (pc f) = true ->
  frame_consistent f w ->
  nativeSuspendAll w = Ok 1 (with_suspend_all_request 1 w) /\
  exists f' w',
    interleave T (Requester :: s) f w = Ok f' w' /\
    (usleeps (calls w') <= usleeps (calls w) + 1)%nat /\
    (in_poll_loop (pc f') = true ->
     suspend_all_request w' = 1 /\ (resumer_turns s < turns_left T f w)%nat) /\
    (pc f' = L_while ->
     nativeResume_step T f' w' = Ok (goto L_clear_request f') w').
Proof.
  intros Hin Hc. split; [reflexivity|].
  assert (Hinv : poll_inv T (usleeps (calls w)) (turns_left T f w) 0 f
                   (with_suspend_all_request 1 w)).
  { split; [|split; [|split]].
    - cbn [calls with_suspend_all_request]. destruct (pc f); lia.
    - intros _. split; [reflexivity|]. apply Nat.le_refl.
    - destruct f as [p st th num i]. unfold frame_consistent, live_threads in *.
      destruct p; exact Hc.
    - destruct (pc f); try discriminate; exact I. }
  destruct (interleave_poll_inv _ _ s 0%nat f _ Hinv) as (f' & w' & Hrun & Hu & Hl & _ & _).
  exists f', w'. split; [exact Hrun|]. split; [lia|]. split.
  - intros Hin'. destruct (Hl Hin') as [Hr Hk]. split; [exact Hr|].
    pose proof (turns_left_in_loop f' w' Hin'). lia.
  - intros Hpc. destruct Hl as [Hr _]; [rewrite Hpc; reflexivity|].
    exec. rewrite Hpc, Hr. reflexivity.
Qed.

End Resume.

Section ResumeRuns.

Context {H : db_header} (T : target).

Lemma reaches_trans (f : frame) (w : world) (f1 : frame) (w1 : world)
    (f2 : frame) (w2 : world) :
  reaches T f w f1 w1 -> reaches T f1 w1 f2 w2 -> reaches T f w f2 w2.
Proof.
  induction 1 as [|f w fa wa fb wb Hstep _ IH]; intros Hrest; [exact Hrest|].
  eapply reaches_step; [exact Hstep|]. apply IH. exact Hrest.
Qed.

Lemma reaches_one (f : frame) (w : world) (f1 : frame) (w1 : world) :
  nativeResume_step T f w = Ok f1 w1 -> reaches T f w f1 w1.
Proof. intros Hstep. eapply reaches_step; [exact Hstep|apply reaches_here]. Qed.

Lemma reaches_run (f : frame) (w : world) (f' : frame) (w' : world) (r : Z) :
  reaches T f w f' w' ->
  pc f' = L_return r ->
  exists fuel, forall extra, nativeResume_run T (fuel + extra) f w = Ok (Some r) w'.
Proof.
  induction 1 as [f w|f w f1 w1 f2 w2 Hstep _ IH]; intros Hpc.
  - exists O. intros extra. destruct extra; cbn [Nat.add nativeResume_run];
      rewrite Hpc; reflexivity.
  - destruct (IH Hpc) as [fuel Hfuel].
    destruct (pc f) eqn:Hf;
      try (exists (S fuel); intros extra; cbn [Nat.add nativeResume_run];
           rewrite Hf; unfold bind; rewrite Hstep; apply Hfuel).
    unfold nativeResume_step in Hstep. rewrite Hf in Hstep.
    injection Hstep as <- <-. exists fuel. exact Hfuel.
Qed.

Lemma polled_trans (w w1 w2 : world) : polled w w1 -> polled w1 w2 -> polled w w2.
Proof.
  intros (Hp & Hn & Hr & [hs Hh] & [cs Hc]) (Hp' & Hn' & Hr' & [hs' Hh'] & [cs' Hc']).
  repeat split; try congruence.
  - exists (hs ++ hs'). rewrite Hh', Hh, app_assoc. reflexivity.
  - exists (cs ++ cs'). rewrite Hc', Hc, app_assoc. reflexivity.
Qed.

Lemma scan_without_debug_suspended (st : Z) (b : nat) (w : world)
    (suf pre : list db_thread) :
  heap w !! b = Some (Some (pre ++ suf)) ->
  Forall (fun t => has_flag DEBUG_SUSPEND_FLAG t = false) suf ->
  exists i,
    reaches T {| pc := L_for; sleep_time := st; threads := Some b;
                 num_threads := Z.of_nat (length (pre ++ suf));
                 idx := Z.of_nat (length pre) |} w
              {| pc := L_free_threads; sleep_time := st; threads := Some b;
                 num_threads := Z.of_nat (length (pre ++ suf)); idx := i |} w.
Proof.
  revert pre. induction suf as [|t suf IH]; intros pre Hb Hq.
  - exists (Z.of_nat (length pre)). apply reaches_one. exec.
    rewrite app_nil_r. rewrite Z.ltb_irrefl. reflexivity.
  - inversion Hq as [|t' suf' Ht Hq']; subst.
    specialize (IH (pre ++ [t])). rewrite <- app_assoc in IH.
    destruct (IH Hb Hq') as [i Hi]. exists i.
    eapply reaches_step; [|exact Hi]. exec.
    destruct (Z.ltb_spec (Z.of_nat (length pre)) (Z.of_nat (length (pre ++ t :: suf))))
      as [_|Hge]; [|rewrite length_app in Hge; cbn [length] in Hge; lia].
    rewrite (load_thread_live _ _ _ _ _ Hb).
    unfold is_th_state. rewrite truth_is_state. fold (has_flag DEBUG_SUSPEND_FLAG t).
    rewrite Ht. rewrite (length_app pre [t]), Nat2Z.inj_add. reflexivity.
Qed.

Lemma poll_once (f : frame) (w : world) :
  pc f = L_while ->
  suspend_all_request w = 0 ->
  none_debug_suspended (db_gather_threads T (gathers w)) ->
  exists f' w',
    reaches T f w f' w' /\ pc f' = L_while /\ polled w w' /\
    terminated w' = terminated w /\ gathers w' = S (gathers w).
Proof.
  intros Hpc Hr (ts & Hts & Hnum & Hq). destruct f as [p st th num i].
  cbn [pc] in Hpc. subst p.
  set (w1 := with_heap (heap w ++ [Some ts]) (S (gathers w)) (add_call Call_db_gather_threads w)).
  assert (Hb : heap w1 !! length (heap w) = Some (Some ([] ++ ts)))
    by apply heap_fresh_block.
  destruct (scan_without_debug_suspended st (length (heap w)) w1 ts [] Hb Hq) as [j Hscan].
  eexists _, _. split; [|split; [|split; [|split]]].
  - eapply reaches_step; [exec; rewrite Hr; reflexivity|].
    eapply reaches_step.
    { exec. rewrite Hts. cbn [fst snd]. rewrite Hnum.
      fold w1. rewrite (trace_threads_live w1 _ ts Hb). reflexivity. }
    eapply reaches_trans; [exact Hscan|].
    eapply reaches_step; [exec; unfold free; rewrite Hb; reflexivity|].
    eapply reaches_step; [exec; unfold w1; exec; rewrite Hr; reflexivity|].
    apply reaches_one. exec. reflexivity.
  - reflexivity.
  - repeat split.
    + exists [None]. cbn. rewrite insert_app_r_alt, Nat.sub_diag by lia. reflexivity.
    + eexists. cbn. rewrite <- app_assoc. reflexivity.
  - reflexivity.
  - reflexivity.
Qed.

Lemma polls_until_null (n : nat) :
  forall (f : frame) (w : world),
    pc f = L_while ->
    suspend_all_request w = 0 ->
    (forall k, (k < n)%nat -> none_debug_suspended (db_gather_threads T (gathers w + k))) ->
    reply_threads (db_gather_threads T (gathers w + n)) = None ->
    exists f' w',
      reaches T f w f' w' /\ pc f' = L_return 1 /\ terminated w' = 1 /\
      polled w w' /\ last (calls w') = Some Call_db_signoff.
Proof.
  induction n as [|n IH]; intros f w Hpc Hr Hquiet Hnull.
  - rewrite Nat.add_0_r in Hnull. destruct f as [p st th num i].
    cbn [pc] in Hpc. subst p.
    eexists _, _. split; [|split; [|split; [|split]]].
    + eapply reaches_step; [exec; rewrite Hr; reflexivity|].
      apply reaches_one. exec. rewrite Hnull. reflexivity.
    + reflexivity.
    + reflexivity.
    + repeat split.
      * exists []. cbn. symmetry. apply app_nil_r.
      * eexists. cbn. rewrite <- app_assoc. reflexivity.
    + cbn. apply last_snoc.
  - destruct (poll_once f w Hpc Hr) as (f1 & w1 & Hreach & Hpc1 & Hpolled & Hterm & Hg).
    { specialize (Hquiet O). rewrite Nat.add_0_r in Hquiet. apply Hquiet. lia. }
    destruct (IH f1 w1 Hpc1) as (f' & w' & Hreach' & Hpc' & Hterm' & Hpolled' & Hlast).
    + destruct Hpolled as (_ & _ & -> & _). exact Hr.
    + intros k Hk. rewrite Hg. replace (S (gathers w) + k)%nat with (gathers w + S k)%nat by lia.
      apply Hquiet. lia.
    + rewrite Hg. replace (S (gathers w) + n)%nat with (gathers w + S n)%nat by lia.
      exact Hnull.
    + exists f', w'. split; [eapply reaches_trans; eassumption|].
      split; [exact Hpc'|]. split; [exact Hterm'|].
      split; [eapply polled_trans; eassumption|exact Hlast].
Qed.

Lemma load_thread_world (p : option nat) (i : Z) (w : world) (t : db_thread) (w' : world) :
  load_thread p i w = Ok t w' -> w' = w.
Proof.
  unfold load_thread. destruct p as [b|]; [|discriminate].
  destruct (heap w !! b) as [[ts|]|]; try discriminate.
  destruct (0 <=? i); [|discriminate].
  destruct (ts !! Z.to_nat i); [|discriminate].
  intros Heq. injection Heq as _ <-. reflexivity.
Qed.

Lemma trace_threads_from_world (n : nat) (p : option nat) :
  forall (i : Z) (w : world) (u : unit) (w' : world),
    trace_threads_from n p i w = Ok u w' -> w' = w.
Proof.
  induction n as [|n IH]; intros i w u w' Hrun.
  - injection Hrun as _ <-. reflexivity.
  - cbn [trace_threads_from] in Hrun. unfold bind in Hrun.
    destruct (load_thread p i w) as [t w1|e] eqn:Hload; [|discriminate].
    apply load_thread_world in Hload. subst w1. eapply IH. exact Hrun.
Qed.

Lemma cycle_inv_requester (w0 : world) (f : frame) (w : world) :
  cycle_inv w0 f w -> cycle_inv w0 f (with_suspend_all_request 1 w).
Proof. unfold cycle_inv. destruct (pc f); intros Hinv; exact Hinv. Qed.

Lemma cycle_inv_resumer (w0 : world) (f : frame) (w : world) (f' : frame) (w' : world) :
  cycle_inv w0 f w ->
  nativeResume_step T f w = Ok f' w' ->
  cycle_inv w0 f' w'.
Proof.
  intros Hinv Hstep. destruct f as [p st th num i].
  unfold cycle_inv in Hinv. cbn [pc threads] in Hinv.
  destruct p; revert Hstep; exec.
  - (* L_free_cache *)
    destruct Hinv as [Hp Hn].
    destruct (threads_at_rest w) as [b|] eqn:Hb.
    + unfold free. destruct (heap w !! b) as [[ts|]|] eqn:Hts; try discriminate.
      intros Heq. injection Heq as <- <-. unfold cycle_inv. cbn.
      split; [congruence|]. split; [exact Hn|].
      intros b0 Hb0. split; [|exact I]. assert (b0 = b) as -> by congruence.
      apply list_lookup_insert_eq. eapply lookup_lt_Some. exact Hts.
    + intros Heq. injection Heq as <- <-. unfold cycle_inv. cbn.
      split; [congruence|]. split; [exact Hn|]. intros b0 Hb0. congruence.
  - intros Heq. injection Heq as <- <-. unfold cycle_inv. cbn.
    destruct Hinv as (Hp & Hn & Hb). repeat split; try assumption; apply Hb; assumption.
  - intros Heq. injection Heq as <- <-. unfold cycle_inv. cbn.
    destruct Hinv as (Hp & Hn & Hb). repeat split; try assumption; apply Hb; assumption.
  - (* L_while *)
    destruct Hinv as (Hp & Hn & Hb).
    destruct (suspend_all_request w =? 0); intros Heq; injection Heq as <- <-;
      unfold cycle_inv; cbn; repeat split; try assumption; apply Hb; assumption.
  - (* L_gather *)
    destruct Hinv as (Hp & Hn & Hb).
    destruct (reply_threads (db_gather_threads T (gathers w))) as [ts|]; cbn [fst snd].
    + match goal with
      | |- context [trace_threads ?a ?b ?c] => destruct (trace_threads a b c) as [u w1|e] eqn:Htr
      end; [|discriminate].
      apply trace_threads_from_world in Htr. subst w1.
      intros Heq. injection Heq as <- <-. unfold cycle_inv. cbn.
      split; [exact Hp|]. split; [exact Hn|]. intros b0 Hb0.
      destruct (Hb b0 Hb0) as [Hfreed _]. split.
      * apply lookup_app_l_Some. exact Hfreed.
      * apply lookup_lt_Some in Hfreed. intros Heq. injection Heq as Heq. lia.
    + intros Heq. injection Heq as <- <-. exact I.
  - (* L_for *)
    destruct Hinv as (Hp & Hn & Hb).
    destruct (i <? num).
    + destruct (load_thread th i w) as [t w1|e] eqn:Hload; [|discriminate].
      apply load_thread_world in Hload. subst w1.
      destruct (truth (is_th_state t DEBUG_SUSPEND_FLAG));
        intros Heq; injection Heq as <- <-; unfold cycle_inv; cbn;
        (split; [exact Hp|]); (split; [exact Hn|]); exact Hb.
    + intros Heq. injection Heq as <- <-. unfold cycle_inv. cbn.
      split; [exact Hp|]. split; [exact Hn|]. exact Hb.
  - (* L_free_threads *)
    destruct Hinv as (Hp & Hn & Hb). unfold free.
    destruct th as [b|].
    + destruct (heap w !! b) as [[ts|]|] eqn:Hts; try discriminate.
      intros Heq. injection Heq as <- <-. unfold cycle_inv. cbn.
      split; [exact Hp|]. split; [exact Hn|]. intros b0 Hb0.
      destruct (Hb b0 Hb0) as [Hfreed Hne]. split; [|exact I].
      rewrite list_lookup_insert_ne by congruence. exact Hfreed.
    + intros Heq. injection Heq as <- <-. unfold cycle_inv. cbn.
      split; [exact Hp|]. split; [exact Hn|]. intros b0 Hb0.
      split; [apply Hb; assumption|exact I].
  - (* L_if_no_request *)
    destruct Hinv as (Hp & Hn & Hb).
    destruct (suspend_all_request w =? 0); intros Heq; injection Heq as <- <-;
      unfold cycle_inv; cbn; repeat split; try assumption; apply Hb; assumption.
  - intros Heq. injection Heq as <- <-. unfold cycle_inv. cbn.
    destruct Hinv as (Hp & Hn & Hb). repeat split; try assumption; apply Hb; assumption.
  - intros Heq. injection Heq as <- <-. unfold cycle_inv. cbn.
    destruct Hinv as (Hp & Hn & Hb). repeat split; try assumption; apply Hb; assumption.
  - intros Heq. injection Heq as <- <-. unfold cycle_inv. cbn.
    destruct Hinv as (Hp & Hn & Hb). repeat split; try assumption; apply Hb; assumption.
  - (* L_final_gather *)
    destruct (reply_threads (db_gather_threads T (gathers w))) as [ts|]; cbn [fst snd];
      match goal with
      | |- context [trace_threads ?a ?b ?c] => destruct (trace_threads a b c) as [u w1|e]
      end; try discriminate; intros Heq; injection Heq as <- <-; exact I.
  - intros Heq. injection Heq as <- <-. exact I.
Qed.

Lemma interleave_cycle_inv (w0 : world) (s : list actor) :
  forall (f : frame) (w : world) (f' : frame) (w' : world),
    cycle_inv w0 f w ->
    interleave T s f w = Ok f' w' ->
    cycle_inv w0 f' w'.
Proof.
  induction s as [|a s IH]; intros f w f' w' Hinv Hrun.
  - injection Hrun as <- <-. exact Hinv.
  - destruct a; cbn [interleave] in Hrun; unfold bind at 1 in Hrun.
    + destruct (nativeResume_step T f w) as [f1 w1|e] eqn:Hstep; [|discriminate].
      eapply IH; [|exact Hrun]. eapply cycle_inv_resumer; eassumption.
    + revert Hrun. exec. intros Hrun.
      eapply IH; [|exact Hrun]. apply cycle_inv_requester. exact Hinv.
Qed.

(** C1: a NULL listing in the polling loop ends the cycle as terminated.
    Run alone with no request pending: when the listings of the first [n]
    polls show no thread that has suspended itself and the next listing
    comes back NULL, [nativeResume] returns 1 after calling [db_signoff]
    last, with [terminated] set; [threads_at_rest] and
    [num_threads_at_rest] still name the array of the previous cycle, which
    line 227 has freed, and no new array is cached.  And at whatever poll
    the NULL listing comes, however calls of [nativeSuspendAll] have fallen
    between the steps of the cycle and whatever the request flag holds:
    the listing call is followed by [db_signoff], [terminated] is set, 1 is
    returned, the request flag is left alone and the cache variables are
    those the cycle began with, their array freed. *)
Theorem nativeResume_target_terminated (w : world) :
  (forall n : nat,
     suspend_all_request w = 0 ->
     (threads_at_rest w = None \/
      exists b ts, threads_at_rest w = Some b /\ heap w !! b = Some (Some ts)) ->
     (forall k, (k < n)%nat -> none_debug_suspended (db_gather_threads T (gathers w + k))) ->
     reply_threads (db_gather_threads T (gathers w + n)) = None ->
     exists fuel w',
       (forall extra, nativeResume T (fuel + extra) w = Ok (Some 1) w') /\
       terminated w' = 1 /\
       last (calls w') = Some Call_db_signoff /\
       threads_at_rest w' = threads_at_rest w /\
       num_threads_at_rest w' = num_threads_at_rest w /\
       (forall b, threads_at_rest w = Some b -> heap w' !! b = Some None) /\
       (forall b, heap w !! b = Some None -> heap w' !! b = Some None)) /\
  (forall (s : list actor) (f1 : frame) (w1 : world),
     interleave T s nativeResume_entry w = Ok f1 w1 ->
     pc f1 = L_gather ->
     reply_threads (db_gather_threads T (gathers w1)) = None ->
     exists f2 w2,
       nativeResume_step T f1 w1 = Ok f2 w2 /\
       pc f2 = L_return 1 /\
       (forall fuel, nativeResume_run T fuel f2 w2 = Ok (Some 1) w2) /\
       calls w2 = calls w1 ++ [Call_db_gather_threads; Call_db_signoff] /\
       terminated w2 = 1 /\
       suspend_all_request w2 = suspend_all_request w1 /\
       threads_at_rest w2 = threads_at_rest w /\
       num_threads_at_rest w2 = num_threads_at_rest w /\
       (forall b, threads_at_rest w = Some b -> heap w2 !! b = Some None)).
Proof.
  split.
  { intros n Hr Hcache Hquiet Hnull.
  assert (Hentry : exists w1,
             reaches T nativeResume_entry w (goto L_while nativeResume_entry) w1 /\
             threads_at_rest w1 = threads_at_rest w /\
             num_threads_at_rest w1 = num_threads_at_rest w /\
             suspend_all_request w1 = 0 /\ gathers w1 = gathers w /\
             (forall b, threads_at_rest w = Some b -> heap w1 !! b = Some None) /\
             (forall b, heap w !! b = Some None -> heap w1 !! b = Some None)).
  { unfold nativeResume_entry.
    destruct Hcache as [Hnone|(b & ts & Hsome & Hb)].
    - eexists. split.
      { eapply reaches_step; [exec; rewrite Hnone; reflexivity|].
        eapply reaches_step; [exec; reflexivity|].
        apply reaches_one. exec. reflexivity. }
      repeat split.
      + exact Hr.
      + intros b Hb. congruence.
      + intros b Hb. exact Hb.
    - eexists. split.
      { eapply reaches_step; [exec; rewrite Hsome; unfold free; rewrite Hb; reflexivity|].
        eapply reaches_step; [exec; reflexivity|].
        apply reaches_one. exec. reflexivity. }
      repeat split.
      + exact Hr.
      + intros b' Hb'. cbn. assert (b' = b) as -> by congruence.
        apply list_lookup_insert_eq. eapply lookup_lt_Some. exact Hb.
      + intros b' Hb'. cbn. rewrite list_lookup_insert_ne by congruence. exact Hb'. }
  destruct Hentry as (w1 & Hreach1 & Hp1 & Hn1 & Hr1 & Hg1 & Hfreed & Hkept).
  destruct (polls_until_null n (goto L_while nativeResume_entry) w1 eq_refl Hr1)
    as (f' & w' & Hreach & Hpc & Hterm & (Hp & Hn & _ & [hs Hh] & _) & Hlast).
  { intros k Hk. rewrite Hg1. apply Hquiet. exact Hk. }
  { rewrite Hg1. exact Hnull. }
  destruct (reaches_run _ _ _ _ 1 (reaches_trans _ _ _ _ _ _ Hreach1 Hreach) Hpc)
    as [fuel Hfuel].
  exists fuel, w'. split; [exact Hfuel|]. split; [exact Hterm|]. split; [exact Hlast|].
  split; [congruence|]. split; [congruence|]. split.
  - intros b Hb. rewrite Hh. apply lookup_app_l_Some. apply Hfreed. exact Hb.
  - intros b Hb. rewrite Hh. apply lookup_app_l_Some. apply Hkept. exact Hb. }
  intros s f1 w1 Hrun Hpc Hnull.
  assert (Hinv : cycle_inv w f1 w1).
  { eapply interleave_cycle_inv; [|exact Hrun]. split; reflexivity. }
  unfold cycle_inv in Hinv. rewrite Hpc in Hinv. destruct Hinv as (Hp & Hn & Hb).
  destruct f1 as [p st th num i]. cbn [pc] in Hpc. subst p.
  eexists _, _. split; [exec; rewrite Hnull; reflexivity|].
  cbn. split; [reflexivity|]. split; [intros fuel; destruct fuel; reflexivity|].
  split; [rewrite <- app_assoc; reflexivity|]. split; [reflexivity|].
  split; [reflexivity|]. split; [exact Hp|]. split; [exact Hn|].
  intros b Hb0. apply Hb. exact Hb0.
Qed.

End ResumeRuns.

Section Terminated.

Context {H : db_header} (T : target).

Lemma load_thread_agree (p : option nat) (i : Z) (w1 w2 : world) :
  heap w1 = heap w2 ->
  (exists t, load_thread p i w1 = Ok t w1 /\ load_thread p i w2 = Ok t w2) \/
  (exists e, load_thread p i w1 = Undefined e /\ load_thread p i w2 = Undefined e).
Proof.
  intros Hh. unfold load_thread. rewrite Hh. destruct p as [b|]; [|right; eauto].
  destruct (heap w2 !! b) as [[ts|]|]; try solve [right; eauto].
  destruct (0 <=? i); [|right; eauto].
  destruct (ts !! Z.to_nat i); [left|right]; eauto.
Qed.

Lemma trace_threads_from_agree (n : nat) (p : option nat) (w1 w2 : world) :
  heap w1 = heap w2 ->
  forall i : Z,
    (trace_threads_from n p i w1 = Ok tt w1 /\ trace_threads_from n p i w2 = Ok tt w2) \/
    (exists e, trace_threads_from n p i w1 = Undefined e /\
               trace_threads_from n p i w2 = Undefined e).
Proof.
  intros Hh. induction n as [|n IH]; intros i; [left; split; reflexivity|].
  cbn [trace_threads_from]. unfold bind.
  destruct (load_thread_agree p i w1 w2 Hh) as [(t & -> & ->)|(e & -> & ->)].
  - apply IH.
  - right. exists e. split; reflexivity.
Qed.

Ltac trace_both :=
  match goal with
  | |- context [trace_threads ?p ?n ?wa] =>
      match goal with
      | |- context [trace_threads p n ?wb] =>
          assert_fails (constr_eq wa wb);
          let Hw := fresh "Hw" in
          destruct (trace_threads_from_agree (Z.to_nat n) p wa wb eq_refl 0)
            as [[Hw Hw']|(e & Hw & Hw')];
          unfold trace_threads; rewrite Hw, Hw'
      end
  end.

Lemma nativeResume_step_agree (f : frame) (w1 w2 : world) :
  with_terminated 0 w1 = with_terminated 0 w2 ->
  agree_but_terminated (nativeResume_step T f w1) (nativeResume_step T f w2).
Proof.
  destruct w1 as [t1 p1 n1 r1 h1 g1 c1], w2 as [t2 p2 n2 r2 h2 g2 c2].
  unfold with_terminated. cbn. intros Heq. injection Heq as -> -> -> -> -> ->.
  destruct f as [p st th num i]. unfold agree_but_terminated.
  destruct p; exec.
  - destruct p2 as [b|]; [|split; reflexivity].
    unfold free. cbn [heap]. destruct (h2 !! b) as [[ts|]|]; (split; reflexivity) || reflexivity.
  - split; reflexivity.
  - split; reflexivity.
  - destruct (r2 =? 0); split; reflexivity.
  - destruct (reply_threads (db_gather_threads T g2)) as [ts|]; cbn [fst snd].
    + trace_both; [split; reflexivity|reflexivity].
    + split; reflexivity.
  - destruct (i <? num); [|split; reflexivity].
    match goal with
    | |- context [load_thread th i ?wa] =>
        match goal with
        | |- context [load_thread th i ?wb] =>
            assert_fails (constr_eq wa wb);
            destruct (load_thread_agree th i wa wb eq_refl) as [(t & -> & ->)|(e & -> & ->)]
        end
    end; [|reflexivity].
    destruct (truth (is_th_state t DEBUG_SUSPEND_FLAG)); split; reflexivity.
  - unfold free. cbn [heap]. destruct th as [b|]; [|split; reflexivity].
    destruct (h2 !! b) as [[ts|]|]; (split; reflexivity) || reflexivity.
  - destruct (r2 =? 0); split; reflexivity.
  - split; reflexivity.
  - split; reflexivity.
  - split; reflexivity.
  - destruct (reply_threads (db_gather_threads T g2)) as [ts|]; cbn [fst snd];
      (trace_both; [split; reflexivity|reflexivity]).
  - split; reflexivity.
Qed.

Lemma interleave_agree (s : list actor) :
  forall (f : frame) (w1 w2 : world),
    with_terminated 0 w1 = with_terminated 0 w2 ->
    agree_but_terminated (interleave T s f w1) (interleave T s f w2).
Proof.
  induction s as [|a s IH]; intros f w1 w2 Heq.
  - split; [reflexivity|exact Heq].
  - destruct a; cbn [interleave]; unfold bind at 1 2.
    + pose proof (nativeResume_step_agree f w1 w2 Heq) as Hstep.
      unfold agree_but_terminated in Hstep.
      destruct (nativeResume_step T f w1) as [f1 w1'|e1],
               (nativeResume_step T f w2) as [f2 w2'|e2]; try contradiction.
      * destruct Hstep as [-> Heq']. apply IH. exact Heq'.
      * exact Hstep.
    + exec. apply IH. unfold with_terminated, with_suspend_all_request in *. cbn in *.
      injection Heq as Hp Hn Hr Hh Hg Hc. congruence.
Qed.

Lemma nativeResume_run_agree (fuel : nat) :
  forall (f : frame) (w1 w2 : world),
    with_terminated 0 w1 = with_terminated 0 w2 ->
    agree_but_terminated (nativeResume_run T fuel f w1) (nativeResume_run T fuel f w2).
Proof.
  induction fuel as [|fuel IH]; intros f w1 w2 Heq.
  - cbn [nativeResume_run]. destruct (pc f); split; (reflexivity || exact Heq).
  - pose proof (nativeResume_step_agree f w1 w2 Heq) as Hstep.
    unfold agree_but_terminated in Hstep.
    cbn [nativeResume_run].
    destruct (pc f) eqn:Hpc; try (split; [reflexivity|exact Heq]);
      unfold bind;
      destruct (nativeResume_step T f w1) as [f1 w1'|e1],
               (nativeResume_step T f w2) as [f2 w2'|e2]; try contradiction;
      try exact Hstep; destruct Hstep as [-> Heq']; apply IH; exact Heq'.
Qed.

(** C8 (amended): with [terminated] set, [gather_and_trace_threads] returns
    at once and calls nothing; [nativeResume] does not look at the flag: run
    alone or between calls of [nativeSuspendAll], from any of its program
    points, it does with the flag set what it does with the flag clear (the
    same steps, calls, result or fault); so when line 227 finds no array or
    a live one to free, its first call to the target is [db_resume_all];
    [teleThreadLocalsInitialize] clears the flag, the cache and the request
    for the next connection. *)
Theorem terminated_only_stops_the_dump (w : world) :
  terminated w <> 0 ->
  gather_and_trace_threads T w = Ok tt w /\
  (forall (s : list actor) (f : frame),
     agree_but_terminated (interleave T s f w) (interleave T s f (with_terminated 0 w))) /\
  (forall fuel : nat,
     agree_but_terminated (nativeResume T fuel w) (nativeResume T fuel (with_terminated 0 w))) /\
  (threads_at_rest w = None ->
   interleave T [Resumer; Resumer] nativeResume_entry w =
     Ok (goto L_first_sleep nativeResume_entry) (add_call Call_db_resume_all w)) /\
  (forall b ts, threads_at_rest w = Some b -> heap w !! b = Some (Some ts) ->
   interleave T [Resumer; Resumer] nativeResume_entry w =
     Ok (goto L_first_sleep nativeResume_entry)
        (add_call Call_db_resume_all (with_heap (<[b := None]> (heap w)) (gathers w) w))) /\
  exists w',
    teleThreadLocalsInitialize w = Ok tt w' /\
    terminated w' = 0 /\ threads_at_rest w' = None /\ num_threads_at_rest w' = 0 /\
    suspend_all_request w' = 0 /\ heap w' = heap w /\ calls w' = calls w.
Proof.
  intros Ht. split; [|split; [|split; [|split; [|split]]]].
  - unfold gather_and_trace_threads, bind, get.
    apply truth_true in Ht. rewrite Ht. reflexivity.
  - intros s f. apply interleave_agree. reflexivity.
  - intros fuel. apply nativeResume_run_agree. reflexivity.
  - intros Hnone. cbn [interleave]. unfold nativeResume_entry. exec.
    rewrite Hnone. reflexivity.
  - intros b ts Hsome Hb. cbn [interleave]. unfold nativeResume_entry. exec.
    rewrite Hsome. unfold free. rewrite Hb. reflexivity.
  - eexists. split; [reflexivity|]. repeat split.
Qed.

End Terminated.

(** C8, as stated, fails: in the world left by a cycle that saw the target
    terminate, a further [nativeResume] resumes, lists and signs off again
    before it returns. *)
Lemma nativeResume_after_termination :
  @nativeResume sample_header sample_target 30 sample_world = Ok (Some 1) terminated_world /\
  terminated terminated_world = 1 /\
  exists w',
    @nativeResume sample_header sample_target 30 terminated_world = Ok (Some 1) w' /\
    calls w' = calls terminated_world ++
                 [Call_db_resume_all; Call_usleep 500; Call_db_gather_threads;
                  Call_db_signoff].
Proof.
  split; [reflexivity|]. split; [reflexivity|].
  eexists. split; reflexivity.
Qed.

Lemma terminated_only_stops_the_dump_witness :
  gather_and_trace_threads sample_target terminated_world = Ok tt terminated_world /\
  agree_but_terminated
    (@interleave sample_header sample_target [Resumer; Resumer; Requester; Resumer]
       nativeResume_entry terminated_world)
    (@interleave sample_header sample_target [Resumer; Resumer; Requester; Resumer]
       nativeResume_entry (with_terminated 0 terminated_world)) /\
  @interleave sample_header sample_target [Resumer; Resumer] nativeResume_entry
     terminated_world =
    Ok (goto L_first_sleep nativeResume_entry)
       (add_call Call_db_resume_all terminated_world) /\
  @interleave sample_header sample_target [Resumer; Resumer] nativeResume_entry
     (with_terminated 1 sleeping_watch_world) =
    Ok (goto L_first_sleep nativeResume_entry)
       (add_call Call_db_resume_all
          (with_heap [None] 1 (with_terminated 1 sleeping_watch_world))).
Proof.
  destruct (@terminated_only_stops_the_dump sample_header sample_target terminated_world)
    as (Hdump & Hsame & _ & Hnone & _ & _).
  - simpl. lia.
  - destruct (@terminated_only_stops_the_dump sample_header sample_target
                (with_terminated 1 sleeping_watch_world))
      as (_ & _ & _ & _ & Hlive & _).
    + simpl. lia.
    + split; [exact Hdump|]. split; [apply Hsame|]. split; [apply Hnone; reflexivity|].
      apply (Hlive 0%nat [ {| id := 1; flags := 4096 + 16384 |} ]); reflexivity.
Defined.

Lemma sample_target_none_debug_suspended (k : nat) :
  (k < 2)%nat ->
  @none_debug_suspended sample_header
     (db_gather_threads sample_target (gathers sample_world + k)).
Proof.
  intros Hk. exists [ {| id := 3; flags := 1 |} ].
  destruct k as [|[|k]]; [| |lia]; repeat split; repeat constructor.
Defined.

Lemma nativeResume_target_terminated_witness :
  (exists fuel w',
     (forall extra, @nativeResume sample_header sample_target (fuel + extra) sample_world
                    = Ok (Some 1) w') /\
     terminated w' = 1 /\
     last (calls w') = Some Call_db_signoff /\
     threads_at_rest w' = threads_at_rest sample_world /\
     num_threads_at_rest w' = num_threads_at_rest sample_world /\
     (forall b, threads_at_rest sample_world = Some b -> heap w' !! b = Some None) /\
     (forall b, heap sample_world !! b = Some None -> heap w' !! b = Some None)) /\
  (let s := [Resumer; Resumer; Resumer; Resumer; Requester] in
   let f1 := goto L_gather nativeResume_entry in
   let w1 := with_suspend_all_request 1
               (add_call (Call_usleep 500)
                  (add_call Call_db_resume_all (with_heap [] 2 sample_world))) in
   exists f2 w2,
     @nativeResume_step sample_header sample_target f1 w1 = Ok f2 w2 /\
     pc f2 = L_return 1 /\
     (forall fuel, @nativeResume_run sample_header sample_target fuel f2 w2 = Ok (Some 1) w2) /\
     calls w2 = calls w1 ++ [Call_db_gather_threads; Call_db_signoff] /\
     terminated w2 = 1 /\
     suspend_all_request w2 = suspend_all_request w1 /\
     threads_at_rest w2 = threads_at_rest sample_world /\
     num_threads_at_rest w2 = num_threads_at_rest sample_world /\
     (forall b, threads_at_rest sample_world = Some b -> heap w2 !! b = Some None)).
Proof.
  split.
  - apply (proj1 (@nativeResume_target_terminated sample_header sample_target sample_world) 2%nat).
    + reflexivity.
    + left. reflexivity.
    + exact sample_target_none_debug_suspended.
    + reflexivity.
  - intros s f1 w1.
    apply (proj2 (@nativeResume_target_terminated sample_header sample_target
                    (with_heap [] 2 sample_world)) s f1 w1).
    + reflexivity.
    + reflexivity.
    + reflexivity.
Defined.

Lemma sample_target_replies_consistent (n : nat) :
  reply_consistent (db_gather_threads sample_target n).
Proof.
  unfold reply_consistent. simpl. destruct (n <? 2)%nat; simpl; lia.
Defined.

Lemma suspend_all_request_ends_poll_witness :
  let f := {| pc := L_backoff; sleep_time := 2000; threads := Some 0%nat;
              num_threads := 1; idx := 1 |} in
  let w := with_heap [None] 1 (add_call Call_db_gather_threads sample_world) in
  let s := [Resumer; Requester; Resumer] in
  nativeSuspendAll w = Ok 1 (with_suspend_all_request 1 w) /\
  exists f' w',
    @interleave sample_header sample_target (Requester :: s) f w = Ok f' w' /\
    (usleeps (calls w') <= usleeps (calls w) + 1)%nat /\
    (in_poll_loop (pc f') = true ->
     suspend_all_request w' = 1 /\ (resumer_turns s < turns_left sample_target f w)%nat) /\
    (pc f' = L_while ->
     @nativeResume_step sample_header sample_target f' w' = Ok (goto L_clear_request f') w').
Proof.
  intros f w s.
  apply (@suspend_all_request_ends_poll sample_header sample_target
           sample_target_replies_consistent f w s).
  - reflexivity.
  - exact I.
Defined.

(** *** Whole cycles of [nativeResume] *)

Lemma first_flagged_split (P : db_thread -> bool) (ts : list db_thread) :
  Exists (fun t => P t = true) ts ->
  exists quiet t rest,
    ts = quiet ++ t :: rest /\ Forall (fun t => P t = false) quiet /\ P t = true.
Proof.
  induction ts as [|a ts IH]; intros Hex; [inversion Hex|].
  destruct (P a) eqn:Ha.
  - exists [], a, ts. repeat split; [constructor|exact Ha].
  - inversion Hex as [? ? Hhd|? ? Htl]; subst; [congruence|].
    destruct (IH Htl) as (quiet & t & rest & -> & Hq & Ht).
    exists (a :: quiet), t, rest. repeat split; [constructor; assumption|exact Ht].
Qed.

Lemma cache_valid_discardable (w : world) :
  cache_valid w ->
  match threads_at_rest w with
  | Some b => exists ts, heap w !! b = Some (Some ts)
  | None => True
  end.
Proof.
  unfold cache_valid. destruct (threads_at_rest w); [|trivial].
  intros (ts & Hb & _). exists ts. exact Hb.
Qed.

Section ResumeCycles.

Context {H : db_header} (T : target).

Lemma resume_entry_reaches (w : world) :
  match threads_at_rest w with
  | Some b => exists ts, heap w !! b = Some (Some ts)
  | None => True
  end ->
  exists w1,
    reaches T nativeResume_entry w (goto L_while nativeResume_entry) w1 /\
    statics_kept w w1 /\ gathers w1 = gathers w /\
    heap w1 = heap_after_discard w /\
    calls w1 = calls w ++ [Call_db_resume_all; Call_usleep 500].
Proof.
  intros Hcache. unfold nativeResume_entry, heap_after_discard.
  destruct (threads_at_rest w) as [b|] eqn:Hp.
  - destruct Hcache as [ts Hb]. eexists. split.
    { eapply reaches_step; [exec; rewrite Hp; unfold free; rewrite Hb; reflexivity|].
      eapply reaches_step; [exec; reflexivity|].
      apply reaches_one. exec. reflexivity. }
    cbn. rewrite <- app_assoc. repeat split; assumption.
  - eexists. split.
    { eapply reaches_step; [exec; rewrite Hp; reflexivity|].
      eapply reaches_step; [exec; reflexivity|].
      apply reaches_one. exec. reflexivity. }
    cbn. rewrite <- app_assoc. repeat split; assumption.
Qed.

Lemma poll_once_exact (f : frame) (w : world) :
  pc f = L_while ->
  suspend_all_request w = 0 ->
  none_debug_suspended (db_gather_threads T (gathers w)) ->
  exists f' w',
    reaches T f w f' w' /\ pc f' = L_while /\
    sleep_time f' = (sleep_time f + 2000) mod 2 ^ 64 /\
    statics_kept w w' /\ gathers w' = S (gathers w) /\
    heap w' = heap w ++ [None] /\
    calls w' = calls w ++ [Call_db_gather_threads;
                           Call_usleep ((sleep_time f + 2000) mod 2 ^ 64 mod 2 ^ 32)].
Proof.
  intros Hpc Hr (ts & Hts & Hnum & Hq). destruct f as [p st th num i].
  cbn [pc] in Hpc. subst p.
  set (w1 := with_heap (heap w ++ [Some ts]) (S (gathers w)) (add_call Call_db_gather_threads w)).
  assert (Hb : heap w1 !! length (heap w) = Some (Some ([] ++ ts)))
    by apply heap_fresh_block.
  destruct (scan_without_debug_suspended T st (length (heap w)) w1 ts [] Hb Hq) as [j Hscan].
  eexists _, _. split.
  { eapply reaches_step; [exec; rewrite Hr; reflexivity|].
    eapply reaches_step.
    { exec. rewrite Hts. cbn [fst snd]. rewrite Hnum.
      fold w1. rewrite (trace_threads_live w1 _ ts Hb). reflexivity. }
    eapply reaches_trans; [exact Hscan|].
    eapply reaches_step; [exec; unfold free; rewrite Hb; reflexivity|].
    eapply reaches_step; [exec; unfold w1; exec; rewrite Hr; reflexivity|].
    apply reaches_one. exec. reflexivity. }
  cbn. rewrite insert_app_r_alt, Nat.sub_diag by lia. cbn. rewrite <- app_assoc.
  repeat split.
Qed.

Lemma quiet_polls_exact (n : nat) :
  forall (m : nat) (f : frame) (w : world),
    pc f = L_while ->
    sleep_time f = (2000 * Z.of_nat m) mod 2 ^ 64 ->
    suspend_all_request w = 0 ->
    (forall k, (k < n)%nat -> none_debug_suspended (db_gather_threads T (gathers w + k))) ->
    exists f' w',
      reaches T f w f' w' /\ pc f' = L_while /\
      sleep_time f' = (2000 * Z.of_nat (m + n)) mod 2 ^ 64 /\
      statics_kept w w' /\ gathers w' = (gathers w + n)%nat /\
      heap w' = heap w ++ replicate n None /\
      calls w' = calls w ++ poll_calls m n.
Proof.
  induction n as [|n IH]; intros m f w Hpc Hst Hr Hquiet.
  - exists f, w. split; [apply reaches_here|]. rewrite !Nat.add_0_r.
    unfold poll_calls. cbn. rewrite !app_nil_r. repeat split; assumption.
  - destruct (poll_once_exact f w Hpc Hr)
      as (f1 & w1 & Hreach & Hpc1 & Hst1 & (Ht1 & Hp1 & Hn1 & Hr1) & Hg1 & Hh1 & Hc1).
    { specialize (Hquiet O). rewrite Nat.add_0_r in Hquiet. apply Hquiet. lia. }
    destruct (IH (S m) f1 w1 Hpc1)
      as (f' & w' & Hreach' & Hpc' & Hst' & (Ht' & Hp' & Hn' & Hr') & Hg' & Hh' & Hc').
    + rewrite Hst1, Hst, Z.add_mod_idemp_l by lia. f_equal. lia.
    + congruence.
    + intros k Hk. rewrite Hg1.
      replace (S (gathers w) + k)%nat with (gathers w + S k)%nat by lia.
      apply Hquiet. lia.
    + exists f', w'. split; [eapply reaches_trans; eassumption|].
      split; [exact Hpc'|]. split; [rewrite Hst'; f_equal; lia|].
      split; [repeat split; congruence|]. split; [lia|]. split.
      * rewrite Hh', Hh1, <- app_assoc. reflexivity.
      * rewrite Hc', Hc1, <- app_assoc. f_equal. unfold poll_calls.
        cbn [seq flat_map]. rewrite Hst, Z.add_mod_idemp_l by lia.
        cbn [app]. replace (2000 * Z.of_nat m + 2000) with (2000 * (Z.of_nat m + 1)) by lia. reflexivity.
Qed.

Lemma scan_finds_debug_suspended (st : Z) (b : nat) (w : world) (t : db_thread)
    (rest quiet pre : list db_thread) :
  heap w !! b = Some (Some (pre ++ quiet ++ t :: rest)) ->
  Forall (fun t => has_flag DEBUG_SUSPEND_FLAG t = false) quiet ->
  has_flag DEBUG_SUSPEND_FLAG t = true ->
  exists i,
    reaches T {| pc := L_for; sleep_time := st; threads := Some b;
                 num_threads := Z.of_nat (length (pre ++ quiet ++ t :: rest));
                 idx := Z.of_nat (length pre) |} w
              {| pc := L_free_threads; sleep_time := st; threads := Some b;
                 num_threads := Z.of_nat (length (pre ++ quiet ++ t :: rest));
                 idx := i |} (with_suspend_all_request 1 w).
Proof.
  revert pre. induction quiet as [|q quiet IH]; intros pre Hb Hq Ht.
  - exists (Z.of_nat (length pre)). apply reaches_one. exec. cbn [app] in *.
    destruct (Z.ltb_spec (Z.of_nat (length pre)) (Z.of_nat (length (pre ++ t :: rest))))
      as [_|Hge]; [|rewrite length_app in Hge; cbn [length] in Hge; lia].
    rewrite (load_thread_live _ _ _ _ _ Hb).
    unfold is_th_state. rewrite truth_is_state. fold (has_flag DEBUG_SUSPEND_FLAG t).
    rewrite Ht. reflexivity.
  - inversion Hq as [|q' quiet' Hqq Hq']; subst.
    specialize (IH (pre ++ [q])). rewrite <- !app_assoc in IH. cbn [app] in *.
    destruct (IH Hb Hq' Ht) as [i Hi]. exists i.
    eapply reaches_step; [|exact Hi]. exec.
    destruct (Z.ltb_spec (Z.of_nat (length pre))
                (Z.of_nat (length (pre ++ q :: quiet ++ t :: rest))))
      as [_|Hge]; [|rewrite length_app in Hge; cbn [length] in Hge; lia].
    rewrite (load_thread_live _ _ _ _ _ Hb).
    unfold is_th_state. rewrite truth_is_state. fold (has_flag DEBUG_SUSPEND_FLAG q).
    rewrite Hqq. rewrite (length_app pre [q]), Nat2Z.inj_add. reflexivity.
Qed.

Lemma poll_finds_debug_suspended (f : frame) (w : world) (ts : list db_thread) :
  pc f = L_while ->
  suspend_all_request w = 0 ->
  reply_threads (db_gather_threads T (gathers w)) = Some ts ->
  reply_num (db_gather_threads T (gathers w)) = Z.of_nat (length ts) ->
  Exists (fun t => has_flag DEBUG_SUSPEND_FLAG t = true) ts ->
  exists f' w',
    reaches T f w f' w' /\ pc f' = L_while /\
    terminated w' = terminated w /\ threads_at_rest w' = threads_at_rest w /\
    num_threads_at_rest w' = num_threads_at_rest w /\
    suspend_all_request w' = 1 /\ gathers w' = S (gathers w) /\
    heap w' = heap w ++ [None] /\
    calls w' = calls w ++ [Call_db_gather_threads].
Proof.
  intros Hpc Hr Hts Hnum Hex. destruct f as [p st th num i].
  cbn [pc] in Hpc. subst p.
  destruct (first_flagged_split _ ts Hex) as (quiet & t & rest & -> & Hq & Ht).
  set (w1 := with_heap (heap w ++ [Some (quiet ++ t :: rest)]) (S (gathers w))
               (add_call Call_db_gather_threads w)).
  assert (Hb : heap w1 !! length (heap w) = Some (Some (quiet ++ t :: rest)))
    by apply heap_fresh_block.
  destruct (scan_finds_debug_suspended st (length (heap w)) w1 t rest quiet [] Hb Hq Ht)
    as [j Hscan].
  eexists _, _. split.
  { eapply reaches_step; [exec; rewrite Hr; reflexivity|].
    eapply reaches_step.
    { exec. rewrite Hts. cbn [fst snd]. rewrite Hnum.
      fold w1. rewrite (trace_threads_live w1 _ _ Hb). reflexivity. }
    eapply reaches_trans; [exact Hscan|].
    eapply reaches_step; [exec; unfold free; cbn [heap with_suspend_all_request];
                          rewrite Hb; reflexivity|].
    apply reaches_one. exec. reflexivity. }
  cbn. rewrite insert_app_r_alt, Nat.sub_diag by lia. cbn.
  repeat split.
Qed.

Lemma resume_finish (f : frame) (w : world) :
  pc f = L_while ->
  suspend_all_request w <> 0 ->
  reply_consistent (db_gather_threads T (gathers w)) ->
  exists f' w',
    reaches T f w f' w' /\ pc f' = L_return 0 /\
    terminated w' = terminated w /\ suspend_all_request w' = 0 /\
    threads_at_rest w' =
      match reply_threads (db_gather_threads T (gathers w)) with
      | Some _ => Some (length (heap w))
      | None => None
      end /\
    num_threads_at_rest w' = reply_num (db_gather_threads T (gathers w)) /\
    heap w' = heap w ++
      match reply_threads (db_gather_threads T (gathers w)) with
      | Some ts => [Some ts]
      | None => []
      end /\
    gathers w' = S (gathers w) /\
    calls w' = calls w ++ [Call_db_suspend_all; Call_db_gather_threads].
Proof.
  intros Hpc Hr Hrc. destruct f as [p st th num i]. cbn [pc] in Hpc. subst p.
  apply Z.eqb_neq in Hr. unfold reply_consistent in Hrc.
  destruct (reply_threads (db_gather_threads T (gathers w))) as [ts|] eqn:Hts.
  - eexists _, _. split.
    { eapply reaches_step; [exec; rewrite Hr; reflexivity|].
      eapply reaches_step; [exec; reflexivity|].
      eapply reaches_step; [exec; reflexivity|].
      apply reaches_one. exec. rewrite Hts. cbn [fst snd]. rewrite Hrc.
      rewrite trace_threads_live by (cbn [heap with_heap add_call with_suspend_all_request];
                                     apply heap_fresh_block).
      reflexivity. }
    cbn. rewrite <- app_assoc. repeat split. symmetry. exact Hrc.
  - eexists _, _. split.
    { eapply reaches_step; [exec; rewrite Hr; reflexivity|].
      eapply reaches_step; [exec; reflexivity|].
      eapply reaches_step; [exec; reflexivity|].
      apply reaches_one. exec. rewrite Hts. cbn [fst snd]. unfold trace_threads.
      replace (Z.to_nat (reply_num (db_gather_threads T (gathers w)))) with O by lia.
      reflexivity. }
    cbn. rewrite <- app_assoc, app_nil_r. repeat split.
Qed.

Lemma nativeResume_cycle (w : world) (n : nat) (ts : list db_thread) :
  suspend_all_request w = 0 ->
  match threads_at_rest w with
  | Some b => exists old, heap w !! b = Some (Some old)
  | None => True
  end ->
  (forall k, (k < n)%nat -> none_debug_suspended (db_gather_threads T (gathers w + k))) ->
  reply_threads (db_gather_threads T (gathers w + n)) = Some ts ->
  reply_num (db_gather_threads T (gathers w + n)) = Z.of_nat (length ts) ->
  Exists (fun t => has_flag DEBUG_SUSPEND_FLAG t = true) ts ->
  reply_consistent (db_gather_threads T (gathers w + n + 1)) ->
  exists fuel w',
    (forall extra, nativeResume T (fuel + extra) w = Ok (Some 0) w') /\
    terminated w' = terminated w /\ suspend_all_request w' = 0 /\
    threads_at_rest w' =
      match reply_threads (db_gather_threads T (gathers w + n + 1)) with
      | Some _ => Some (length (heap w) + n + 1)%nat
      | None => None
      end /\
    num_threads_at_rest w' = reply_num (db_gather_threads T (gathers w + n + 1)) /\
    heap w' = heap_after_discard w ++ replicate (S n) None ++
      match reply_threads (db_gather_threads T (gathers w + n + 1)) with
      | Some final => [Some final]
      | None => []
      end /\
    gathers w' = (gathers w + n + 2)%nat /\
    calls w' = calls w ++ [Call_db_resume_all; Call_usleep 500] ++ poll_calls 0 n ++
                 [Call_db_gather_threads; Call_db_suspend_all; Call_db_gather_threads].
Proof.
  intros Hr Hcache Hquiet Hts Hnum Hex Hfinal.
  destruct (resume_entry_reaches w Hcache)
    as (w1 & Hreach1 & (Ht1 & Hp1 & Hn1 & Hr1) & Hg1 & Hh1 & Hc1).
  destruct (quiet_polls_exact n O (goto L_while nativeResume_entry) w1 eq_refl eq_refl)
    as (f2 & w2 & Hreach2 & Hpc2 & _ & (Ht2 & Hp2 & Hn2 & Hr2) & Hg2 & Hh2 & Hc2).
  { congruence. }
  { intros k Hk. rewrite Hg1. apply Hquiet. exact Hk. }
  destruct (poll_finds_debug_suspended f2 w2 ts Hpc2)
    as (f3 & w3 & Hreach3 & Hpc3 & Ht3 & Hp3 & Hn3 & Hr3 & Hg3 & Hh3 & Hc3);
    try (rewrite Hg2, Hg1; assumption); [congruence|exact Hex|].
  destruct (resume_finish f3 w3 Hpc3)
    as (f4 & w4 & Hreach4 & Hpc4 & Ht4 & Hr4 & Hp4 & Hn4 & Hh4 & Hg4 & Hc4).
  { rewrite Hr3. discriminate. }
  { rewrite Hg3, Hg2, Hg1. replace (S (gathers w + n)) with (gathers w + n + 1)%nat by lia.
    exact Hfinal. }
  assert (Hg : S (gathers w2) = (gathers w + n + 1)%nat) by lia.
  rewrite Hg3, Hg in Hp4, Hn4, Hh4.
  assert (Hlen : length (heap w3) = (length (heap w) + n + 1)%nat).
  { rewrite Hh3, Hh2, Hh1, !length_app, length_replicate. cbn [length].
    unfold heap_after_discard. destruct (threads_at_rest w); [rewrite length_insert|]; lia. }
  destruct (reaches_run T _ _ _ _ 0
              (reaches_trans T _ _ _ _ _ _ Hreach1
                 (reaches_trans T _ _ _ _ _ _ Hreach2
                    (reaches_trans T _ _ _ _ _ _ Hreach3 Hreach4))) Hpc4)
    as [fuel Hfuel].
  exists fuel, w4. split; [exact Hfuel|]. split; [congruence|]. split; [exact Hr4|].
  split; [rewrite Hp4, Hlen; reflexivity|]. split; [exact Hn4|]. split; [|split].
  - rewrite Hh4, Hh3, Hh2, Hh1, <- !app_assoc. f_equal.
    replace (S n) with (n + 1)%nat by lia. rewrite replicate_add, <- app_assoc.
    reflexivity.
  - lia.
  - rewrite Hc4, Hc3, Hc2, Hc1, <- !app_assoc. reflexivity.
Qed.

Lemma filter_poll_calls (n : nat) :
  forall m : nat,
    2000 * Z.of_nat (m + n) < 2 ^ 32 ->
    List.filter is_usleep (poll_calls m n) =
      map (fun k => Call_usleep (2000 * (Z.of_nat k + 1))) (seq m n).
Proof.
  unfold poll_calls. induction n as [|n IH]; intros m Hm; [reflexivity|].
  cbn [seq flat_map map app List.filter is_usleep].
  rewrite IH by lia. f_equal. f_equal.
  rewrite (Z.mod_small _ (2 ^ 64)) by lia. apply Z.mod_small. lia.
Qed.

(** X1: a cycle in which [n] polls find nothing, the next listing shows a
    thread that has suspended itself and the listing after [db_suspend_all]
    is [final] returns 0 with the request flag clear and [terminated] as it
    was; the cache then holds exactly [final] in a live array, every other
    array obtained in the cycle has been freed, and the calls made are
    resume-all, the first sleep, the polls, suspend-all and the last
    listing. *)
Theorem nativeResume_rests_after_self_suspend (w : world) (n : nat)
    (ts final : list db_thread) :
  suspend_all_request w = 0 ->
  cache_valid w ->
  (forall k, (k < n)%nat -> none_debug_suspended (db_gather_threads T (gathers w + k))) ->
  reply_threads (db_gather_threads T (gathers w + n)) = Some ts ->
  reply_num (db_gather_threads T (gathers w + n)) = Z.of_nat (length ts) ->
  Exists (fun t => has_flag DEBUG_SUSPEND_FLAG t = true) ts ->
  reply_threads (db_gather_threads T (gathers w + n + 1)) = Some final ->
  reply_num (db_gather_threads T (gathers w + n + 1)) = Z.of_nat (length final) ->
  exists fuel w',
    (forall extra, nativeResume T (fuel + extra) w = Ok (Some 0) w') /\
    terminated w' = terminated w /\ suspend_all_request w' = 0 /\
    cache_holds w' final /\
    heap w' = heap_after_discard w ++ replicate (S n) None ++ [Some final] /\
    calls w' = calls w ++ [Call_db_resume_all; Call_usleep 500] ++ poll_calls 0 n ++
                 [Call_db_gather_threads; Call_db_suspend_all; Call_db_gather_threads].
Proof.
  intros Hr Hcache Hquiet Hts Hnum Hex Hfin Hfnum.
  destruct (nativeResume_cycle w n ts Hr (cache_valid_discardable w Hcache)
              Hquiet Hts Hnum Hex)
    as (fuel & w' & Hrun & Ht & Hr' & Hp & Hn & Hh & _ & Hc).
  { unfold reply_consistent. rewrite Hfin. exact Hfnum. }
  rewrite Hfin in Hp, Hh. exists fuel, w'.
  split; [exact Hrun|]. split; [exact Ht|]. split; [exact Hr'|].
  split; [|split; [exact Hh|exact Hc]].
  split; [congruence|]. rewrite Hp, Hh.
  rewrite app_assoc. apply list_lookup_middle.
  rewrite length_app, length_replicate. unfold heap_after_discard.
  destruct (threads_at_rest w); [rewrite length_insert|]; lia.
Qed.

(** X2: in such a cycle the sleeps are the first one of 500 microseconds
    and then, after the k-th poll that found nothing, one of 2000 * k
    microseconds (as long as that fits the 32 bits of [useconds_t]). *)
Theorem nativeResume_backoff_is_linear (w : world) (n : nat) (ts : list db_thread) :
  2000 * Z.of_nat n < 2 ^ 32 ->
  suspend_all_request w = 0 ->
  cache_valid w ->
  (forall k, (k < n)%nat -> none_debug_suspended (db_gather_threads T (gathers w + k))) ->
  reply_threads (db_gather_threads T (gathers w + n)) = Some ts ->
  reply_num (db_gather_threads T (gathers w + n)) = Z.of_nat (length ts) ->
  Exists (fun t => has_flag DEBUG_SUSPEND_FLAG t = true) ts ->
  reply_consistent (db_gather_threads T (gathers w + n + 1)) ->
  exists fuel w' cs,
    (forall extra, nativeResume T (fuel + extra) w = Ok (Some 0) w') /\
    calls w' = calls w ++ cs /\
    List.filter is_usleep cs =
      Call_usleep 500 :: map (fun k => Call_usleep (2000 * (Z.of_nat k + 1))) (seq 0 n).
Proof.
  intros Hsmall Hr Hcache Hquiet Hts Hnum Hex Hfinal.
  destruct (nativeResume_cycle w n ts Hr (cache_valid_discardable w Hcache)
              Hquiet Hts Hnum Hex Hfinal)
    as (fuel & w' & Hrun & _ & _ & _ & _ & _ & _ & Hc).
  eexists fuel, w', _. split; [exact Hrun|]. split; [exact Hc|].
  rewrite !List.filter_app, filter_poll_calls by (cbn [Nat.add]; exact Hsmall).
  cbn. rewrite app_nil_r. reflexivity.
Qed.

(** X3: when the target is gone at the listing that follows
    [db_suspend_all], the cycle still returns 0: [terminated] stays as it
    was, [db_signoff] is not called, and the cache is left without an
    array. *)
Theorem nativeResume_misses_late_termination (w : world) (n : nat) (ts : list db_thread) :
  suspend_all_request w = 0 ->
  cache_valid w ->
  (forall k, (k < n)%nat -> none_debug_suspended (db_gather_threads T (gathers w + k))) ->
  reply_threads (db_gather_threads T (gathers w + n)) = Some ts ->
  reply_num (db_gather_threads T (gathers w + n)) = Z.of_nat (length ts) ->
  Exists (fun t => has_flag DEBUG_SUSPEND_FLAG t = true) ts ->
  reply_threads (db_gather_threads T (gathers w + n + 1)) = None ->
  reply_num (db_gather_threads T (gathers w + n + 1)) <= 0 ->
  exists fuel w' cs,
    (forall extra, nativeResume T (fuel + extra) w = Ok (Some 0) w') /\
    terminated w' = terminated w /\
    threads_at_rest w' = None /\
    calls w' = calls w ++ cs /\ ~ In Call_db_signoff cs.
Proof.
  intros Hr Hcache Hquiet Hts Hnum Hex Hfin Hfnum.
  destruct (nativeResume_cycle w n ts Hr (cache_valid_discardable w Hcache)
              Hquiet Hts Hnum Hex)
    as (fuel & w' & Hrun & Ht & _ & Hp & _ & _ & _ & Hc).
  { unfold reply_consistent. rewrite Hfin. exact Hfnum. }
  rewrite Hfin in Hp. eexists fuel, w', _.
  split; [exact Hrun|]. split; [exact Ht|]. split; [exact Hp|]. split; [exact Hc|].
  rewrite !in_app_iff. unfold poll_calls. rewrite in_flat_map.
  intros [Hin|[Hin|Hin]].
  - cbn in Hin. intuition discriminate.
  - destruct Hin as (k & _ & Hk). cbn in Hk. intuition discriminate.
  - cbn in Hin. intuition discriminate.
Qed.

(** X4: a request stored before the cycle starts is honoured without a
    single poll: the calls are resume-all, the first sleep, suspend-all and
    one listing, which becomes the cache; the request flag is clear again
    on return. *)
Theorem nativeResume_pending_request_skips_polling (w : world) (final : list db_thread) :
  suspend_all_request w <> 0 ->
  cache_valid w ->
  reply_threads (db_gather_threads T (gathers w)) = Some final ->
  reply_num (db_gather_threads T (gathers w)) = Z.of_nat (length final) ->
  exists fuel w',
    (forall extra, nativeResume T (fuel + extra) w = Ok (Some 0) w') /\
    terminated w' = terminated w /\ suspend_all_request w' = 0 /\
    cache_holds w' final /\
    calls w' = calls w ++ [Call_db_resume_all; Call_usleep 500;
                           Call_db_suspend_all; Call_db_gather_threads].
Proof.
  intros Hr Hcache Hfin Hfnum.
  destruct (resume_entry_reaches w (cache_valid_discardable w Hcache))
    as (w1 & Hreach1 & (Ht1 & Hp1 & Hn1 & Hr1) & Hg1 & Hh1 & Hc1).
  destruct (resume_finish (goto L_while nativeResume_entry) w1 eq_refl)
    as (f2 & w2 & Hreach2 & Hpc2 & Ht2 & Hr2 & Hp2 & Hn2 & Hh2 & _ & Hc2).
  { congruence. }
  { rewrite Hg1. unfold reply_consistent. rewrite Hfin. exact Hfnum. }
  rewrite Hg1, Hfin in Hp2, Hh2. rewrite Hg1 in Hn2.
  destruct (reaches_run T _ _ _ _ 0 (reaches_trans T _ _ _ _ _ _ Hreach1 Hreach2) Hpc2)
    as [fuel Hfuel].
  exists fuel, w2. split; [exact Hfuel|]. split; [congruence|]. split; [exact Hr2|].
  split; [|rewrite Hc2, Hc1, <- app_assoc; reflexivity].
  split; [congruence|]. rewrite Hp2, Hh2. apply list_lookup_middle. reflexivity.
Qed.

End ResumeCycles.

Section ResumeSafety.

Context {H : db_header} (T : target).

Hypothesis replies_consistent : forall n, reply_consistent (db_gather_threads T n).

Lemma safe_inv_requester (f : frame) (w : world) :
  safe_inv f w -> safe_inv f (with_suspend_all_request 1 w).
Proof.
  intros [Hc Hp]. destruct f as [p st th num i].
  unfold safe_inv, frame_consistent, live_threads, cache_valid in *.
  cbn [pc threads num_threads idx] in *. split; destruct p; assumption.
Qed.

Lemma safe_inv_resumer (f : frame) (w : world) :
  safe_inv f w ->
  exists f' w', nativeResume_step T f w = Ok f' w' /\ safe_inv f' w'.
Proof.
  intros [Hc Hp]. destruct f as [p st th num i].
  unfold safe_inv, frame_consistent, live_threads in *.
  cbn [pc threads num_threads idx] in *.
  destruct p.
  - (* L_free_cache *)
    exec. unfold cache_valid in Hp.
    destruct (threads_at_rest w) as [b|] eqn:Hb.
    + destruct Hp as (ts & Hts & _). unfold free. rewrite Hts.
      eexists _, _. split; [reflexivity|]. cbn. split; exact I.
    + eexists _, _. split; [reflexivity|]. cbn. split; exact I.
  - exec. eexists _, _. split; [reflexivity|]. cbn. split; exact I.
  - exec. eexists _, _. split; [reflexivity|]. cbn. split; exact I.
  - (* L_while *)
    exec. destruct (suspend_all_request w =? 0);
      eexists _, _; (split; [reflexivity|]); cbn; split; exact I.
  - (* L_gather *)
    exec.
    pose proof (replies_consistent (gathers w)) as Hrc. unfold reply_consistent in Hrc.
    destruct (reply_threads (db_gather_threads T (gathers w))) as [ts|] eqn:Hts.
    + cbn [fst snd]. rewrite Hrc.
      rewrite trace_threads_live by (cbn [heap with_heap add_call]; apply heap_fresh_block).
      eexists _, _. split; [reflexivity|]. cbn. split; [|exact I]. split; [|lia].
      eexists _, _. split; [reflexivity|]. split; [apply heap_fresh_block|reflexivity].
    + cbn [fst snd]. eexists _, _. split; [reflexivity|]. cbn.
      split; [exact I|]. split; [discriminate|reflexivity].
  - (* L_for *)
    destruct Hc as [(b & ts & -> & Hb & ->) Hi]. exec.
    destruct (Z.ltb_spec i (Z.of_nat (length ts))) as [Hlt|Hge].
    + destruct (load_thread_in_range w b ts i Hb) as (t & _ & ->); [lia|].
      destruct (truth (is_th_state t DEBUG_SUSPEND_FLAG));
        eexists _, _; (split; [reflexivity|]); cbn; (split; [|exact I]).
      * eexists _, _. split; [reflexivity|]. split; [exact Hb|reflexivity].
      * split; [|lia].
        eexists _, _. split; [reflexivity|]. split; [exact Hb|reflexivity].
    + eexists _, _. split; [reflexivity|]. cbn. split; [|exact I].
      eexists _, _. split; [reflexivity|]. split; [exact Hb|reflexivity].
  - (* L_free_threads *)
    destruct Hc as (b & ts & -> & Hb & ->). exec. unfold free. rewrite Hb.
    eexists _, _. split; [reflexivity|]. cbn. split; exact I.
  - (* L_if_no_request *)
    exec. destruct (suspend_all_request w =? 0);
      eexists _, _; (split; [reflexivity|]); cbn; split; exact I.
  - exec. eexists _, _. split; [reflexivity|]. cbn. split; exact I.
  - exec. eexists _, _. split; [reflexivity|]. cbn. split; exact I.
  - exec. eexists _, _. split; [reflexivity|]. cbn. split; exact I.
  - (* L_final_gather *)
    exec.
    pose proof (replies_consistent (gathers w)) as Hrc. unfold reply_consistent in Hrc.
    destruct (reply_threads (db_gather_threads T (gathers w))) as [ts|] eqn:Hts.
    + cbn [fst snd]. rewrite Hrc.
      rewrite trace_threads_live by (cbn [heap with_heap add_call]; apply heap_fresh_block).
      eexists _, _. split; [reflexivity|]. cbn. split; [exact I|].
      split; [|discriminate]. intros _. unfold cache_valid. cbn.
      exists ts. split; [apply heap_fresh_block|reflexivity].
    + cbn [fst snd]. unfold trace_threads.
      replace (Z.to_nat (reply_num (db_gather_threads T (gathers w)))) with O by lia.
      cbn [trace_threads_from]. exec.
      eexists _, _. split; [reflexivity|]. cbn. split; [exact I|].
      split; [|discriminate]. intros _. unfold cache_valid. cbn. exact Hrc.
  - (* L_return *)
    exec. eexists _, _. split; [reflexivity|]. cbn. split; [exact I|exact Hp].
Qed.

Lemma interleave_safe_inv (s : list actor) :
  forall (f : frame) (w : world),
    safe_inv f w ->
    exists f' w', interleave T s f w = Ok f' w' /\ safe_inv f' w'.
Proof.
  induction s as [|a s IH]; intros f w Hinv.
  - exists f, w. split; [reflexivity|exact Hinv].
  - destruct a; cbn [interleave]; unfold bind at 1.
    + destruct (safe_inv_resumer f w Hinv) as (f1 & w1 & -> & Hinv1).
      apply IH. exact Hinv1.
    + exec. apply IH. apply safe_inv_requester. exact Hinv.
Qed.

(** X5: with listings whose count matches their array and a cache that is
    valid on entry, a cycle of [nativeResume] never faults, however calls of
    [nativeSuspendAll] fall between its steps; whenever it has returned 0
    the cache is valid again, and whenever it has returned 1 [terminated]
    is set. *)
Theorem nativeResume_never_faults (w : world) (s : list actor) :
  cache_valid w ->
  exists f' w',
    interleave T s nativeResume_entry w = Ok f' w' /\
    (pc f' = L_return 0 -> cache_valid w') /\
    (pc f' = L_return 1 -> terminated w' = 1).
Proof.
  intros Hcache.
  destruct (interleave_safe_inv s nativeResume_entry w) as (f' & w' & Hrun & _ & Hp).
  { split; [exact I|exact Hcache]. }
  exists f', w'. split; [exact Hrun|].
  split; intros Hpc; rewrite Hpc in Hp; apply Hp; reflexivity.
Qed.

End ResumeSafety.

(** *** The cache after a cycle, and the reads that go through it *)

Section CacheUse.

Context {H : db_header} (T : target).

(** X6: a cycle that starts with a cached array and sees the target
    terminate frees the array and leaves [threads_at_rest] pointing at it;
    afterwards [get_wp_thread] reads freed memory, and a further
    [nativeResume] frees the array a second time. *)
Theorem cache_dangles_after_termination (w : world) (n b : nat) (old : list db_thread) :
  suspend_all_request w = 0 ->
  threads_at_rest w = Some b ->
  heap w !! b = Some (Some old) ->
  0 < num_threads_at_rest w ->
  (forall k, (k < n)%nat -> none_debug_suspended (db_gather_threads T (gathers w + k))) ->
  reply_threads (db_gather_threads T (gathers w + n)) = None ->
  exists fuel w',
    (forall extra, nativeResume T (fuel + extra) w = Ok (Some 1) w') /\
    threads_at_rest w' = Some b /\
    heap w' !! b = Some None /\
    get_wp_thread w' = Undefined UseAfterFree /\
    (forall fuel', nativeResume T (S fuel') w' = Undefined InvalidFree).
Proof.
  intros Hr Hp Hb Hnum Hquiet Hnull.
  destruct (resume_entry_reaches T w)
    as (w1 & Hreach1 & (_ & Hp1 & Hn1 & Hr1) & Hg1 & Hh1 & _).
  { rewrite Hp. exists old. exact Hb. }
  destruct (polls_until_null T n (goto L_while nativeResume_entry) w1 eq_refl)
    as (f' & w' & Hreach & Hpc & _ & (Hp' & Hn' & _ & [hs Hh] & _) & _).
  { congruence. }
  { intros k Hk. rewrite Hg1. apply Hquiet. exact Hk. }
  { rewrite Hg1. exact Hnull. }
  destruct (reaches_run T _ _ _ _ 1 (reaches_trans T _ _ _ _ _ _ Hreach1 Hreach) Hpc)
    as [fuel Hfuel].
  assert (Hp2 : threads_at_rest w' = Some b) by congruence.
  assert (Hb2 : heap w' !! b = Some None).
  { rewrite Hh, Hh1. unfold heap_after_discard. rewrite Hp.
    apply lookup_app_l_Some, list_lookup_insert_eq. eapply lookup_lt_Some. exact Hb. }
  exists fuel, w'. split; [exact Hfuel|]. split; [exact Hp2|]. split; [exact Hb2|]. split.
  - unfold get_wp_thread, bind, get.
    destruct (Z.to_nat (num_threads_at_rest w')) eqn:Hz; [lia|].
    cbn [get_wp_thread_from]. unfold bind, get. rewrite Hp2.
    unfold load_thread. rewrite Hb2. reflexivity.
  - intros fuel'. unfold nativeResume, nativeResume_entry.
    cbn [nativeResume_run pc]. unfold bind at 1. exec. rewrite Hp2.
    unfold free. rewrite Hb2. reflexivity.
Qed.

Lemma get_wp_thread_valid (w : world) :
  cache_valid w -> exists r, get_wp_thread w = Ok r w.
Proof.
  unfold cache_valid. intros Hv.
  destruct (threads_at_rest w) as [b|] eqn:Hp.
  - destruct Hv as (ts & Hb & Hn). eexists.
    apply (get_wp_thread_cached w ts). split; [exact Hn|]. rewrite Hp. exact Hb.
  - exists (-1). unfold get_wp_thread, bind, get.
    replace (Z.to_nat (num_threads_at_rest w)) with O by lia. reflexivity.
Qed.

(** X7: with a valid cache neither watchpoint read faults, and each makes
    exactly one call and leaves the static state and the heap alone: either
    both return 0 and the call is the log line, or both ask
    [db_watchpoint_info] about one and the same thread of non-negative id
    and return its address and, respectively, its kind without [AFTER_W]. *)
Theorem watchpoint_reads_never_fault (w : world) :
  cache_valid w ->
  (nativeReadWatchpointAddress T w =
     Ok 0 (add_call (Call_log_println msg_no_thread_at_watchpoint) w) /\
   nativeReadWatchpointAccessCode T w =
     Ok 0 (add_call (Call_log_println msg_no_thread_at_watchpoint) w)) \/
  (exists thread_id,
     0 <= thread_id /\
     nativeReadWatchpointAddress T w =
       Ok (fst (db_watchpoint_info T thread_id))
          (add_call (Call_db_watchpoint_info thread_id) w) /\
     nativeReadWatchpointAccessCode T w =
       Ok (Z.land (snd (db_watchpoint_info T thread_id)) (Z.lnot AFTER_W))
          (add_call (Call_db_watchpoint_info thread_id) w)).
Proof.
  intros Hv. destruct (get_wp_thread_valid w Hv) as [r Hr].
  unfold nativeReadWatchpointAddress, nativeReadWatchpointAccessCode, bind.
  rewrite Hr. destruct (Z.ltb_spec r 0) as [Hneg|Hpos].
  - left. split; reflexivity.
  - right. exists r. split; [exact Hpos|]. split; reflexivity.
Qed.

(** X8: when the first cached thread with [WATCH_FLAG] has a negative id,
    both reads take it for no thread at all: they return 0 and only log,
    whatever threads follow it in the cache. *)
Theorem negative_id_hides_watchpoint (w : world) (ts : list db_thread) (t : db_thread) :
  cache_holds w ts ->
  List.find (has_flag WATCH_FLAG) ts = Some t ->
  id t < 0 ->
  nativeReadWatchpointAddress T w =
    Ok 0 (add_call (Call_log_println msg_no_thread_at_watchpoint) w) /\
  nativeReadWatchpointAccessCode T w =
    Ok 0 (add_call (Call_log_println msg_no_thread_at_watchpoint) w).
Proof.
  intros Hc Hf Hid.
  unfold nativeReadWatchpointAddress, nativeReadWatchpointAccessCode, bind.
  rewrite (get_wp_thread_cached w ts Hc), Hf.
  destruct (Z.ltb_spec (id t) 0); [|lia]. split; reflexivity.
Qed.

(** X9: with a cached thread at a watchpoint (non-negative id), the address
    read asks [db_watchpoint_info] once, about the first such thread, and
    returns the address it reports. *)
Theorem nativeReadWatchpointAddress_first_watch_thread
    (w : world) (ts : list db_thread) (t : db_thread) :
  cache_holds w ts ->
  List.find (has_flag WATCH_FLAG) ts = Some t ->
  0 <= id t ->
  nativeReadWatchpointAddress T w =
    Ok (fst (db_watchpoint_info T (id t))) (add_call (Call_db_watchpoint_info (id t)) w).
Proof.
  intros Hc Hf Hid. unfold nativeReadWatchpointAddress, bind.
  rewrite (get_wp_thread_cached w ts Hc), Hf.
  destruct (Z.ltb_spec (id t) 0); [lia|]. reflexivity.
Qed.

End CacheUse.

(** *** Listing threads, the dump, and failed register reads *)

Section Listing.

Context {H : db_header} (T : target).

Lemma nativeGatherThreads_from_reports (b : nat) (suf : list db_thread) :
  forall (pre : list db_thread) (w : world),
    heap w !! b = Some (Some (pre ++ suf)) ->
    Forall (fun t => is_Some (db_get_regs T (id t))) suf ->
    exists w',
      nativeGatherThreads_from T (length suf) (Some b) (Z.of_nat (length pre)) w = Ok tt w' /\
      statics_kept w w' /\ heap w' = heap w /\ gathers w' = gathers w /\
      calls w' = calls w ++ flat_map (gather_report T) suf.
Proof.
  induction suf as [|t suf IH]; intros pre w Hb Hregs.
  - exists w. cbn. rewrite app_nil_r. repeat split.
  - inversion Hregs as [|t' suf' [regs Ht] Hregs']; subst.
    cbn [length nativeGatherThreads_from]. unfold bind at 1.
    rewrite (load_thread_live _ _ _ _ _ Hb).
    unfold checked_get_regs. rewrite Ht. exec.
    specialize (IH (pre ++ [t])). rewrite <- app_assoc in IH.
    rewrite length_app, Nat2Z.inj_add in IH.
    match goal with
    | |- context [nativeGatherThreads_from T _ _ _ ?w1] =>
        destruct (IH w1 Hb Hregs') as (w' & Hrun & (Ht' & Hp' & Hn' & Hr') & Hh' & Hg' & Hc')
    end.
    exists w'. split; [exact Hrun|]. cbn in *.
    split; [repeat split; assumption|]. split; [exact Hh'|]. split; [exact Hg'|].
    rewrite Hc'. unfold gather_report at 2. rewrite Ht, <- !app_assoc. reflexivity.
Qed.

(** X10: when every listed thread has registers, [nativeGatherThreads]
    returns 0 having reported the threads one by one in listing order, each
    with its classified state, its [rip] and the thread locals found from
    its [rsp]; the listing is freed, and the static state, so also a rested
    cache, is as before. *)
Theorem nativeGatherThreads_reports_each_thread (w : world) (ts : list db_thread) :
  reply_threads (db_gather_threads T (gathers w)) = Some ts ->
  reply_num (db_gather_threads T (gathers w)) = Z.of_nat (length ts) ->
  Forall (fun t => is_Some (db_get_regs T (id t))) ts ->
  exists w',
    nativeGatherThreads T w = Ok 0 w' /\
    statics_kept w w' /\
    heap w' = heap w ++ [None] /\
    calls w' = calls w ++ Call_db_gather_threads :: flat_map (gather_report T) ts /\
    (forall cached, cache_holds w cached -> cache_holds w' cached).
Proof.
  intros Hts Hnum Hregs. unfold nativeGatherThreads. exec. rewrite Hts. cbn [fst snd].
  rewrite Hnum, Nat2Z.id.
  set (w1 := with_heap (heap w ++ [Some ts]) (S (gathers w)) (add_call Call_db_gather_threads w)).
  assert (Hb : heap w1 !! length (heap w) = Some (Some ([] ++ ts)))
    by apply heap_fresh_block.
  destruct (nativeGatherThreads_from_reports (length (heap w)) ts [] w1 Hb Hregs)
    as (w2 & Hrun & (Ht2 & Hp2 & Hn2 & Hr2) & Hh2 & Hg2 & Hc2).
  change (Z.of_nat (length (@nil db_thread))) with 0 in Hrun. rewrite Hrun.
  unfold free. rewrite Hh2. cbn [app] in Hb. rewrite Hb.
  eexists. split; [reflexivity|]. cbn [terminated threads_at_rest num_threads_at_rest
    suspend_all_request heap calls with_heap].
  assert (Hheap : <[length (heap w) := None]> (heap w1) = heap w ++ [None]).
  { unfold w1. cbn. rewrite insert_app_r_alt, Nat.sub_diag by lia. reflexivity. }
  split; [repeat split; assumption|]. split; [exact Hheap|]. split.
  - rewrite Hc2. unfold w1. cbn. rewrite <- app_assoc. reflexivity.
  - intros cached [Hcn Hcp]. unfold cache_holds.
    cbn [threads_at_rest num_threads_at_rest heap with_heap].
    rewrite Hn2, Hp2. change (num_threads_at_rest w1) with (num_threads_at_rest w).
    change (threads_at_rest w1) with (threads_at_rest w).
    split; [exact Hcn|]. destruct (threads_at_rest w) as [c|]; [|exact Hcp].
    rewrite Hheap. apply lookup_app_l_Some. exact Hcp.
Qed.

(** X11: when the target lists nothing (NULL, no count),
    [nativeGatherThreads] reports no thread and returns 0 after the one
    listing call. *)
Theorem nativeGatherThreads_empty_listing (w : world) :
  reply_threads (db_gather_threads T (gathers w)) = None ->
  reply_num (db_gather_threads T (gathers w)) <= 0 ->
  nativeGatherThreads T w =
    Ok 0 (with_heap (heap w) (S (gathers w)) (add_call Call_db_gather_threads w)).
Proof.
  intros Hts Hnum. unfold nativeGatherThreads. exec. rewrite Hts. cbn [fst snd].
  replace (Z.to_nat (reply_num (db_gather_threads T (gathers w)))) with O by lia.
  reflexivity.
Qed.

Lemma gather_and_trace_threads_runs (w : world) :
  terminated w = 0 ->
  reply_consistent (db_gather_threads T (gathers w)) ->
  exists w',
    gather_and_trace_threads T w = Ok tt w' /\
    statics_kept w w' /\
    gathers w' = S (gathers w) /\
    calls w' = calls w ++ [Call_db_gather_threads] /\
    heap w' = heap w ++
      match reply_threads (db_gather_threads T (gathers w)) with
      | Some _ => [None]
      | None => []
      end.
Proof.
  intros Ht Hrc. unfold gather_and_trace_threads, bind at 1, get. rewrite Ht.
  cbn [truth Z.eqb negb]. exec. unfold reply_consistent in Hrc.
  destruct (reply_threads (db_gather_threads T (gathers w))) as [ts|] eqn:Hts.
  - cbn [fst snd]. rewrite Hrc.
    rewrite trace_threads_live by (cbn [heap with_heap add_call]; apply heap_fresh_block).
    unfold free. cbn [heap with_heap]. rewrite heap_fresh_block.
    eexists. split; [reflexivity|]. cbn.
    rewrite insert_app_r_alt, Nat.sub_diag by lia. repeat split.
  - cbn [fst snd]. unfold trace_threads.
    replace (Z.to_nat (reply_num (db_gather_threads T (gathers w)))) with O by lia.
    eexists. split; [reflexivity|]. cbn. rewrite app_nil_r. repeat split.
Qed.

(** X12: [gather_and_trace_threads], on a target not marked terminated and
    with a listing whose count matches its array, makes the one listing
    call, frees the array it was given, and leaves the static state as it
    was. *)
Theorem gather_and_trace_threads_frees_its_listing (w : world) :
  terminated w = 0 ->
  reply_consistent (db_gather_threads T (gathers w)) ->
  exists w',
    gather_and_trace_threads T w = Ok tt w' /\
    statics_kept w w' /\
    gathers w' = S (gathers w) /\
    calls w' = calls w ++ [Call_db_gather_threads] /\
    heap w' = heap w ++
      match reply_threads (db_gather_threads T (gathers w)) with
      | Some _ => [None]
      | None => []
      end.
Proof. apply gather_and_trace_threads_runs. Qed.

Lemma nativeGatherThreads_from_faults (b : nat) (bad : db_thread)
    (rest good : list db_thread) :
  forall (pre : list db_thread) (w : world),
    heap w !! b = Some (Some (pre ++ good ++ bad :: rest)) ->
    Forall (fun t => is_Some (db_get_regs T (id t))) good ->
    db_get_regs T (id bad) = None ->
    terminated w <> 0 \/ reply_consistent (db_gather_threads T (gathers w)) ->
    nativeGatherThreads_from T (length (good ++ bad :: rest)) (Some b)
      (Z.of_nat (length pre)) w = Undefined NullDereference.
Proof.
  induction good as [|t good IH]; intros pre w Hb Hregs Hbad Hdump.
  - cbn [app length nativeGatherThreads_from]. unfold bind at 1.
    rewrite (load_thread_live _ _ _ _ _ Hb).
    unfold checked_get_regs. rewrite Hbad. unfold bind at 1 2 3 4, record_call.
    destruct (truth (terminated w)) eqn:Ht.
    + unfold gather_and_trace_threads, bind, get, ret. cbn [terminated add_call].
      rewrite Ht. reflexivity.
    + apply truth_false in Ht. destruct Hdump as [Hne|Hrc]; [congruence|].
      destruct (gather_and_trace_threads_runs
                  (add_call (Call_log_println (msg_cannot_get_registers (id bad)))
                     (add_call (Call_db_get_regs (id bad)) w)))
        as (w' & Hrun & _); [exact Ht|exact Hrc|].
      unfold bind. rewrite Hrun. reflexivity.
  - inversion Hregs as [|t' good' [regs Ht] Hregs']; subst.
    cbn [app length nativeGatherThreads_from]. unfold bind at 1.
    rewrite (load_thread_live _ _ _ _ _ Hb).
    unfold checked_get_regs. rewrite Ht. exec.
    specialize (IH (pre ++ [t])). rewrite <- app_assoc in IH.
    rewrite (length_app pre [t]), Nat2Z.inj_add in IH.
    apply IH; assumption.
Qed.

(** X14: whenever a listed thread has no registers (and the dump that
    [checked_get_regs] triggers runs through), [nativeGatherThreads] goes on
    to read [db_regs->rsp] through the NULL it was handed. *)
Theorem nativeGatherThreads_faults_without_registers (w : world) (bad : db_thread)
    (good rest : list db_thread) :
  reply_threads (db_gather_threads T (gathers w)) = Some (good ++ bad :: rest) ->
  reply_num (db_gather_threads T (gathers w)) = Z.of_nat (length (good ++ bad :: rest)) ->
  Forall (fun t => is_Some (db_get_regs T (id t))) good ->
  db_get_regs T (id bad) = None ->
  terminated w <> 0 \/ reply_consistent (db_gather_threads T (S (gathers w))) ->
  nativeGatherThreads T w = Undefined NullDereference.
Proof.
  intros Hts Hnum Hregs Hbad Hdump. unfold nativeGatherThreads. exec.
  rewrite Hts. cbn [fst snd]. rewrite Hnum, Nat2Z.id.
  rewrite (nativeGatherThreads_from_faults (length (heap w)) bad rest good []);
    [reflexivity| |assumption|assumption|exact Hdump].
  apply heap_fresh_block.
Qed.

(** X13: when the declared lengths fit but the target has no registers for
    the thread, [nativeReadRegisters] returns false and copies nothing; it
    logs the failure and, unless [terminated] is set, dumps the threads;
    the static state is as before. *)
Theorem nativeReadRegisters_thread_not_found (threadId : Z)
    (integerRegisters floatingPointRegisters stateRegisters : list byte)
    (integerRegistersLength floatingPointRegistersLength stateRegistersLength : Z)
    (w : world) :
  to_size_t integerRegistersLength <= sizeof_isa_CanonicalIntegerRegistersStruct ->
  to_size_t stateRegistersLength <= sizeof_isa_CanonicalStateRegistersStruct ->
  to_size_t floatingPointRegistersLength <= sizeof_isa_CanonicalFloatingPointRegistersStruct ->
  db_get_regs T threadId = None ->
  reply_consistent (db_gather_threads T (gathers w)) ->
  exists w',
    nativeReadRegisters T threadId integerRegisters integerRegistersLength
      floatingPointRegisters floatingPointRegistersLength
      stateRegisters stateRegistersLength w =
    Ok (0, (integerRegisters, floatingPointRegisters, stateRegisters)) w' /\
    statics_kept w w' /\
    calls w' = calls w ++ [Call_db_get_regs threadId;
                           Call_log_println (msg_cannot_get_registers threadId)] ++
                 (if truth (terminated w) then [] else [Call_db_gather_threads]).
Proof.
  intros Hi Hs Hf Hregs Hrc. unfold nativeReadRegisters.
  destruct (Z.ltb_spec sizeof_isa_CanonicalIntegerRegistersStruct
              (to_size_t integerRegistersLength)); [lia|].
  destruct (Z.ltb_spec sizeof_isa_CanonicalStateRegistersStruct
              (to_size_t stateRegistersLength)); [lia|].
  destruct (Z.ltb_spec sizeof_isa_CanonicalFloatingPointRegistersStruct
              (to_size_t floatingPointRegistersLength)); [lia|].
  unfold checked_get_regs. rewrite Hregs. unfold bind at 1 2 3, record_call.
  destruct (truth (terminated w)) eqn:Ht.
  - unfold gather_and_trace_threads, bind, get, ret. cbn [terminated add_call].
    rewrite Ht. eexists. split; [reflexivity|]. cbn. rewrite <- app_assoc.
    repeat split.
  - apply truth_false in Ht.
    destruct (gather_and_trace_threads_runs
                (add_call (Call_log_println (msg_cannot_get_registers threadId))
                   (add_call (Call_db_get_regs threadId) w)))
      as (w' & Hrun & (Ht' & Hp' & Hn' & Hr') & _ & Hc' & _); [exact Ht|exact Hrc|].
    unfold bind, ret. rewrite Hrun. exists w'. split; [reflexivity|].
    cbn in *. split; [repeat split; assumption|].
    rewrite Hc', <- !app_assoc. reflexivity.
Qed.

End Listing.

(** *** The classifier and bits it does not read *)

Lemma land_within_mask (state mask flag : Z) :
  Z.land mask flag = flag ->
  Z.land (Z.land state mask) flag = Z.land state flag.
Proof. intros Hm. rewrite <- Z.land_assoc, Hm. reflexivity. Qed.

(** X15: [toThreadState] reads the five wait and watchpoint flags and
    nothing else: clearing every other bit of the state does not change
    the answer. *)
Theorem toThreadState_ignores_other_flags `{db_header} (state : Z) :
  toThreadState
    (Z.land state
       (Z.lor (Z.lor (Z.lor (Z.lor AUX1_FLAG AUX2_FLAG) JOIN_FLAG) SLEEP_FLAG) WATCH_FLAG))
  = toThreadState state.
Proof.
  unfold toThreadState.
  rewrite !land_within_mask; [reflexivity|..];
    apply Z.bits_inj'; intros n _; rewrite Z.land_spec, !Z.lor_spec;
    match goal with
    | |- _ && Z.testbit ?F n = _ => destruct (Z.testbit F n)
    end; rewrite ?orb_true_r, ?andb_false_r; reflexivity.
Qed.

(** *** [print_uart0] *)

Lemma byte_eqb_x00_false (c : byte) : c <> x00 -> Byte.eqb c x00 = false.
Proof.
  intros Hc. destruct (Byte.eqb c x00) eqn:E; [|reflexivity].
  apply Byte.byte_dec_bl in E. contradiction.
Qed.

(** X16: [print_uart0] stores one word per character before the first NUL,
    in order, and nothing of what follows the NUL; each word is the
    character converted to [unsigned int]. *)
Theorem print_uart0_stops_at_terminator (char_is_signed : bool) (body rest : list byte) :
  Forall (fun c => c <> x00) body ->
  print_uart0 char_is_signed (body ++ x00 :: rest) =
    Some (map (char_to_unsigned_int char_is_signed) body).
Proof.
  induction 1 as [|c body Hc _ IH]; [reflexivity|].
  cbn [app print_uart0 map]. rewrite (byte_eqb_x00_false c Hc), IH. reflexivity.
Qed.

(** X17: [print_uart0] runs off its argument exactly when the argument holds
    no NUL. *)
Theorem print_uart0_needs_terminator (char_is_signed : bool) (s : list byte) :
  print_uart0 char_is_signed s = None <-> Forall (fun c => c <> x00) s.
Proof.
  induction s as [|c s IH]; [split; [constructor|reflexivity]|].
  cbn [print_uart0]. destruct (Byte.eqb c x00) eqn:E.
  - apply Byte.byte_dec_bl in E. subst c. split; [discriminate|].
    intros Hall. inversion Hall. congruence.
  - apply Byte.eqb_false in E. split.
    + intros Hn. constructor; [exact E|]. apply IH.
      destruct (print_uart0 char_is_signed s); [discriminate|reflexivity].
    + intros Hall. inversion Hall; subst.
      rewrite (proj2 IH) by assumption. reflexivity.
Qed.

(** *** A request that comes too late *)

(** X18: a call of [nativeSuspendAll] that falls between the exit from the
    polling loop and line 264 leaves no trace: the cycle goes on exactly as
    without it and the request flag is 0 after line 264. *)
Theorem request_before_clear_is_lost `{db_header} (T : target) (f : frame) (w : world) :
  pc f = L_clear_request ->
  interleave T [Requester; Resumer] f w = interleave T [Resumer] f w /\
  interleave T [Requester; Resumer] f w =
    Ok (goto L_suspend_all f) (with_suspend_all_request 0 w).
Proof.
  intros Hpc. cbn [interleave]. exec. rewrite Hpc. split; reflexivity.
Qed.

(** *** The theorems above at concrete targets *)

Lemma halting_target_first_listing_quiet (k : nat) :
  (k < 1)%nat ->
  @none_debug_suspended sample_header
     (db_gather_threads halting_target (gathers sample_world + k)).
Proof.
  intros Hk. destruct k as [|k]; [|lia].
  exists [ {| id := 3; flags := 1 |} ]. repeat split. repeat constructor.
Defined.

Lemma halting_target_second_listing_halted :
  Exists (fun t => @has_flag (@DEBUG_SUSPEND_FLAG sample_header) t = true)
    [ {| id := 3; flags := 1 |}; {| id := 4; flags := 64 + 16384 |} ].
Proof. apply Exists_cons_tl, Exists_cons_hd. reflexivity. Defined.

Lemma halting_target_replies_consistent (n : nat) :
  reply_consistent (db_gather_threads halting_target n).
Proof.
  unfold reply_consistent. simpl.
  destruct (n <? 1)%nat; [reflexivity|]. destruct (n <? 2)%nat; reflexivity.
Defined.

Lemma nativeResume_rests_after_self_suspend_witness :
  exists fuel w',
    (forall extra, @nativeResume sample_header halting_target (fuel + extra) sample_world
                   = Ok (Some 0) w') /\
    terminated w' = terminated sample_world /\ suspend_all_request w' = 0 /\
    cache_holds w' [ {| id := 3; flags := 64 |}; {| id := 4; flags := 64 + 16384 |} ] /\
    heap w' = heap_after_discard sample_world ++ replicate 2 None ++
                [Some [ {| id := 3; flags := 64 |}; {| id := 4; flags := 64 + 16384 |} ]] /\
    calls w' = calls sample_world ++ [Call_db_resume_all; Call_usleep 500] ++ poll_calls 0 1 ++
                 [Call_db_gather_threads; Call_db_suspend_all; Call_db_gather_threads].
Proof.
  apply (@nativeResume_rests_after_self_suspend sample_header halting_target sample_world 1
           [ {| id := 3; flags := 1 |}; {| id := 4; flags := 64 + 16384 |} ]).
  - reflexivity.
  - try unfold cache_valid; simpl; lia.
  - exact halting_target_first_listing_quiet.
  - reflexivity.
  - reflexivity.
  - exact halting_target_second_listing_halted.
  - reflexivity.
  - reflexivity.
Defined.

Lemma nativeResume_backoff_is_linear_witness :
  exists fuel w' cs,
    (forall extra, @nativeResume sample_header halting_target (fuel + extra) sample_world
                   = Ok (Some 0) w') /\
    calls w' = calls sample_world ++ cs /\
    List.filter is_usleep cs = [Call_usleep 500; Call_usleep 2000].
Proof.
  apply (@nativeResume_backoff_is_linear sample_header halting_target sample_world 1
           [ {| id := 3; flags := 1 |}; {| id := 4; flags := 64 + 16384 |} ]).
  - try unfold cache_valid; simpl; lia.
  - reflexivity.
  - try unfold cache_valid; simpl; lia.
  - exact halting_target_first_listing_quiet.
  - reflexivity.
  - reflexivity.
  - exact halting_target_second_listing_halted.
  - apply halting_target_replies_consistent.
Defined.

Lemma nativeResume_misses_late_termination_witness :
  exists fuel w' cs,
    (forall extra, @nativeResume sample_header vanishing_target (fuel + extra) sample_world
                   = Ok (Some 0) w') /\
    terminated w' = terminated sample_world /\
    threads_at_rest w' = None /\
    calls w' = calls sample_world ++ cs /\ ~ In Call_db_signoff cs.
Proof.
  apply (@nativeResume_misses_late_termination sample_header vanishing_target sample_world 0
           [ {| id := 3; flags := 64 |} ]).
  - reflexivity.
  - try unfold cache_valid; simpl; lia.
  - intros k Hk. lia.
  - reflexivity.
  - reflexivity.
  - apply Exists_cons_hd. reflexivity.
  - reflexivity.
  - try unfold cache_valid; simpl; lia.
Defined.

Lemma nativeResume_pending_request_skips_polling_witness :
  exists fuel w',
    (forall extra, @nativeResume sample_header halting_target (fuel + extra)
                     (with_suspend_all_request 1 sample_world) = Ok (Some 0) w') /\
    terminated w' = 0 /\ suspend_all_request w' = 0 /\
    cache_holds w' [ {| id := 3; flags := 1 |} ] /\
    calls w' = [Call_db_resume_all; Call_usleep 500;
                Call_db_suspend_all; Call_db_gather_threads].
Proof.
  apply (@nativeResume_pending_request_skips_polling sample_header halting_target
           (with_suspend_all_request 1 sample_world) [ {| id := 3; flags := 1 |} ]).
  - try unfold cache_valid; simpl; lia.
  - try unfold cache_valid; simpl; lia.
  - reflexivity.
  - reflexivity.
Defined.

Lemma nativeResume_never_faults_witness :
  exists f' w',
    @interleave sample_header halting_target
       [Resumer; Resumer; Requester; Resumer; Resumer; Resumer; Resumer; Resumer]
       nativeResume_entry sample_world = Ok f' w' /\
    (pc f' = L_return 0 -> cache_valid w') /\
    (pc f' = L_return 1 -> terminated w' = 1).
Proof.
  apply (@nativeResume_never_faults sample_header halting_target
           halting_target_replies_consistent).
  unfold cache_valid; simpl; lia.
Defined.

Lemma sample_target_second_listing_quiet (k : nat) :
  (k < 1)%nat ->
  @none_debug_suspended sample_header
     (db_gather_threads sample_target (gathers sleeping_watch_world + k)).
Proof.
  intros Hk. destruct k as [|k]; [|lia].
  exists [ {| id := 3; flags := 1 |} ]. repeat split. repeat constructor.
Defined.

Lemma cache_dangles_after_termination_witness :
  exists fuel w',
    (forall extra, @nativeResume sample_header sample_target (fuel + extra)
                     sleeping_watch_world = Ok (Some 1) w') /\
    threads_at_rest w' = Some 0%nat /\
    heap w' !! 0%nat = Some None /\
    @get_wp_thread sample_header w' = Undefined UseAfterFree /\
    (forall fuel', @nativeResume sample_header sample_target (S fuel') w'
                   = Undefined InvalidFree).
Proof.
  apply (@cache_dangles_after_termination sample_header sample_target
           sleeping_watch_world 1 0 [ {| id := 1; flags := 4096 + 16384 |} ]).
  - reflexivity.
  - reflexivity.
  - reflexivity.
  - try unfold cache_valid; simpl; lia.
  - exact sample_target_second_listing_quiet.
  - reflexivity.
Defined.

Lemma watchpoint_reads_never_fault_witness :
  (@nativeReadWatchpointAddress sample_header halting_target sleeping_watch_world =
     Ok 0 (add_call (Call_log_println msg_no_thread_at_watchpoint) sleeping_watch_world) /\
   @nativeReadWatchpointAccessCode sample_header halting_target sleeping_watch_world =
     Ok 0 (add_call (Call_log_println msg_no_thread_at_watchpoint) sleeping_watch_world)) \/
  (exists thread_id,
     0 <= thread_id /\
     @nativeReadWatchpointAddress sample_header halting_target sleeping_watch_world =
       Ok (fst (db_watchpoint_info halting_target thread_id))
          (add_call (Call_db_watchpoint_info thread_id) sleeping_watch_world) /\
     @nativeReadWatchpointAccessCode sample_header halting_target sleeping_watch_world =
       Ok (Z.land (snd (db_watchpoint_info halting_target thread_id))
             (Z.lnot (@AFTER_W sample_header)))
          (add_call (Call_db_watchpoint_info thread_id) sleeping_watch_world)).
Proof.
  apply (@watchpoint_reads_never_fault sample_header halting_target sleeping_watch_world).
  exists [ {| id := 1; flags := 4096 + 16384 |} ]. split; reflexivity.
Defined.

Lemma negative_id_hides_watchpoint_witness :
  @nativeReadWatchpointAddress sample_header halting_target negative_id_world =
    Ok 0 (add_call (Call_log_println msg_no_thread_at_watchpoint) negative_id_world) /\
  @nativeReadWatchpointAccessCode sample_header halting_target negative_id_world =
    Ok 0 (add_call (Call_log_println msg_no_thread_at_watchpoint) negative_id_world).
Proof.
  apply (@negative_id_hides_watchpoint sample_header halting_target negative_id_world
           [ {| id := -2; flags := 16384 |}; {| id := 5; flags := 16384 |} ]
           {| id := -2; flags := 16384 |}).
  - split; reflexivity.
  - reflexivity.
  - try unfold cache_valid; simpl; lia.
Defined.

Lemma nativeReadWatchpointAddress_first_watch_thread_witness :
  @nativeReadWatchpointAddress sample_header halting_target sleeping_watch_world =
    Ok 8192 (add_call (Call_db_watchpoint_info 1) sleeping_watch_world).
Proof.
  apply (@nativeReadWatchpointAddress_first_watch_thread sample_header halting_target
           sleeping_watch_world [ {| id := 1; flags := 4096 + 16384 |} ]
           {| id := 1; flags := 4096 + 16384 |}).
  - split; reflexivity.
  - reflexivity.
  - try unfold cache_valid; simpl; lia.
Defined.

Lemma nativeGatherThreads_reports_each_thread_witness :
  exists w',
    @nativeGatherThreads sample_header halting_target sample_world = Ok 0 w' /\
    statics_kept sample_world w' /\
    heap w' = heap sample_world ++ [None] /\
    calls w' = calls sample_world ++
                 Call_db_gather_threads ::
                 flat_map (@gather_report sample_header halting_target)
                   [ {| id := 3; flags := 1 |} ] /\
    (forall cached, cache_holds sample_world cached -> cache_holds w' cached).
Proof.
  apply (@nativeGatherThreads_reports_each_thread sample_header halting_target sample_world
           [ {| id := 3; flags := 1 |} ]).
  - reflexivity.
  - reflexivity.
  - repeat constructor. eexists. reflexivity.
Defined.

Lemma nativeGatherThreads_empty_listing_witness :
  @nativeGatherThreads sample_header sample_target (with_heap [] 2 sample_world) =
    Ok 0 (with_heap [] 3 (add_call Call_db_gather_threads (with_heap [] 2 sample_world))).
Proof.
  apply (@nativeGatherThreads_empty_listing sample_header sample_target
           (with_heap [] 2 sample_world)).
  - reflexivity.
  - try unfold cache_valid; simpl; lia.
Defined.

Lemma gather_and_trace_threads_frees_its_listing_witness :
  exists w',
    gather_and_trace_threads sample_target sample_world = Ok tt w' /\
    statics_kept sample_world w' /\
    gathers w' = 1%nat /\
    calls w' = [Call_db_gather_threads] /\
    heap w' = [None].
Proof.
  apply (gather_and_trace_threads_frees_its_listing sample_target sample_world).
  - reflexivity.
  - apply sample_target_replies_consistent.
Defined.

Lemma lost_thread_target_replies_consistent (n : nat) :
  reply_consistent (db_gather_threads lost_thread_target n).
Proof. reflexivity. Defined.

Lemma nativeReadRegisters_thread_not_found_witness :
  exists w',
    @nativeReadRegisters sample_header lost_thread_target 7
       [x00; x00; x00; x00] 4 [x00; x00; x00] 3 [x00; x00] 2 sample_world =
    Ok (0, ([x00; x00; x00; x00], [x00; x00; x00], [x00; x00])) w' /\
    statics_kept sample_world w' /\
    calls w' = [Call_db_get_regs 7; Call_log_println (msg_cannot_get_registers 7);
                Call_db_gather_threads].
Proof.
  apply (@nativeReadRegisters_thread_not_found sample_header lost_thread_target 7
           [x00; x00; x00; x00] [x00; x00; x00] [x00; x00] 4 3 2 sample_world).
  - vm_compute. discriminate.
  - vm_compute. discriminate.
  - vm_compute. discriminate.
  - reflexivity.
  - apply lost_thread_target_replies_consistent.
Defined.

Lemma nativeGatherThreads_faults_without_registers_witness :
  @nativeGatherThreads sample_header lost_thread_target sample_world =
    Undefined NullDereference.
Proof.
  apply (@nativeGatherThreads_faults_without_registers sample_header lost_thread_target
           sample_world {| id := 7; flags := 1 |} [] []).
  - reflexivity.
  - reflexivity.
  - constructor.
  - reflexivity.
  - right. apply lost_thread_target_replies_consistent.
Defined.

Lemma print_uart0_stops_at_terminator_witness :
  print_uart0 false [x48; x69; x00; x41] = Some [72; 105].
Proof.
  apply (print_uart0_stops_at_terminator false [x48; x69] [x41]).
  repeat constructor; discriminate.
Defined.

Lemma print_uart0_needs_terminator_witness :
  print_uart0 false [x48; x69] = None.
Proof.
  apply (proj2 (print_uart0_needs_terminator false [x48; x69])).
  repeat constructor; discriminate.
Defined.

Lemma request_before_clear_is_lost_witness :
  @interleave sample_header halting_target [Requester; Resumer]
     (goto L_clear_request nativeResume_entry) sample_world =
    Ok (goto L_suspend_all nativeResume_entry) sample_world.
Proof.
  apply (@request_before_clear_is_lost sample_header halting_target
           (goto L_clear_request nativeResume_entry) sample_world).
  reflexivity.
Defined.
